(** * A shallow embedding of [log.py]: severity levels, formatters, the
    [Log] class and the module-level facade over the global logger. *)

From Stdlib Require Import ZArith NArith List String Ascii Bool Lia.
From Stdlib Require Import DecimalString DecimalPos DecimalZ.
From stdpp Require Import base option list.
Import ListNotations.

Local Open Scope N_scope.

(** ** Python strings

    A Python [str] is a sequence of Unicode code points; it is modelled as a
    list of code points (numbers), so that characters outside Latin-1 and the
    escaping done by [json.dumps] can be expressed. *)

Definition pystr := list N.

(** An ASCII literal of the source as a [pystr]. *)
Fixpoint lit (s : string) : pystr :=
  match s with
  | EmptyString => []
  | String c s' => N_of_ascii c :: lit s'
  end.

(** A double-quoted ASCII literal. *)
Definition quoted (s : string) : pystr := [34] ++ lit s ++ [34].

Definition pystr_eqb (a b : pystr) : bool := bool_decide (a = b).

(** [str.lower] on the ASCII letters.  The source applies it to the member
    names of [Level] only, which are ASCII. *)
Definition lower_char (c : N) : N :=
  if (65 <=? c) && (c <=? 90) then c + 32 else c.

Definition lower (s : pystr) : pystr := map lower_char s.

(** ** Exceptions and results *)

Inductive exn :=
| ValueError (msg : option pystr)   (* [raise ValueError] carries no message *)
| AttributeError                    (* [.value] on a [str] *)
| IndexError                        (* [l[-1]] on an empty list *)
| OSError                           (* [open] failed *)
| NotImplementedError
| ReferenceError.                   (* a reference to no object: never raised
                                       by well-formed stores *)

Inductive result (A : Type) :=
| Return (a : A)
| Raise (e : exn).
Arguments Return {A} a.
Arguments Raise {A} e.

(** ** [class Level(Enum)] *)

Module Level.

Inductive t := Error | Warning | Log | Info | Debug.

(** [auto()] numbers the members from 1 in declaration order. *)
Definition value (l : t) : N :=
  match l with
  | Error => 1
  | Warning => 2
  | Log => 3
  | Info => 4
  | Debug => 5
  end.

Definition name (l : t) : pystr :=
  match l with
  | Error => lit "Error"
  | Warning => lit "Warning"
  | Log => lit "Log"
  | Info => lit "Info"
  | Debug => lit "Debug"
  end.

Definition all : list t := [Error; Warning; Log; Info; Debug].

End Level.

#[global] Instance Level_eq_dec : EqDecision Level.t.
Proof. solve_decision. Defined.

(** A severity argument as callers may pass it: [str | Level]. *)
Inductive level_arg :=
| AStr (s : pystr)
| ALevel (l : Level.t).

(** The dict literal of [_ensure_level], in source order. *)
Definition level_names : list (pystr * Level.t) :=
  [ (lit "error", Level.Error);
    (lit "warning", Level.Warning);
    (lit "log", Level.Log);
    (lit "info", Level.Info);
    (lit "debug", Level.Debug) ].

(** [d[k]] on a dict given by its items: [None] stands for [KeyError]. *)
Fixpoint dict_get {V} (d : list (pystr * V)) (k : pystr) : option V :=
  match d with
  | [] => None
  | (k', v) :: d' => if pystr_eqb k' k then Some v else dict_get d' k
  end.

Definition _ensure_level (level : level_arg) : result Level.t :=
  match level with
  | AStr s =>
      match dict_get level_names s with
      | Some l => Return l
      | None => Raise (ValueError (Some (lit "Invalid level name: " ++ s)))
      end
  | ALevel l => Return l
  end.

(** The lower-case name of a severity, as [stdout_formatter] prints it. *)
Definition level_name_lower (l : Level.t) : pystr := lower (Level.name l).

(** ** Python values used as message payloads

    [log] accepts any value as message; the two formatters of the source
    render it with [json.dumps] and with [str].  The payloads modelled are the
    scalars on which both are defined without reference to the Unicode
    database or to floating point. *)

Inductive pyval :=
| PNone
| PBool (b : bool)
| PInt (z : Z)
| PStr (s : pystr).

(** [str(z)] for an [int]. *)
Definition str_int (z : Z) : pystr := lit (NilZero.string_of_int (Z.to_int z)).

(** [str(v)], which is also what an f-string field [{v}] renders. *)
Definition py_str (v : pyval) : pystr :=
  match v with
  | PNone => lit "None"
  | PBool true => lit "True"
  | PBool false => lit "False"
  | PInt z => str_int z
  | PStr s => s
  end.

(** ** [datetime]

    The timestamps of the source are aware datetimes in UTC
    ([dt.datetime.now().astimezone(dt.timezone.utc)]), so the offset is not a
    field.  Python keeps every field within its range ([datetime_valid]). *)

Record datetime := {
  year : N; month : N; day : N;
  hour : N; minute : N; second : N; microsecond : N
}.

Definition is_leap (y : N) : bool :=
  (y mod 4 =? 0) && (negb (y mod 100 =? 0) || (y mod 400 =? 0)).

Definition days_in_month (y m : N) : N :=
  if m =? 2 then (if is_leap y then 29 else 28)
  else if (m =? 4) || (m =? 6) || (m =? 9) || (m =? 11) then 30
  else 31.

Definition datetime_valid (t : datetime) : bool :=
  (1 <=? year t) && (year t <=? 9999) &&
  (1 <=? month t) && (month t <=? 12) &&
  (1 <=? day t) && (day t <=? days_in_month (year t) (month t)) &&
  (hour t <? 24) && (minute t <? 60) && (second t <? 60) &&
  (microsecond t <? 1000000).

(** The [k] low-order decimal digits of [n], most significant first: what
    ["%0kd" % n] prints when [n < 10^k], which the field ranges guarantee. *)
Fixpoint zpad (k : nat) (n : N) : pystr :=
  match k with
  | O => []
  | S k' => zpad k' (n / 10) ++ [48 + n mod 10]
  end.

(** [datetime.isoformat(sep)] of an aware UTC datetime: the fraction is left
    out when [microsecond] is 0, the offset is always [+00:00]. *)
Definition isoformat_sep (sep : N) (t : datetime) : pystr :=
  zpad 4 (year t) ++ lit "-" ++ zpad 2 (month t) ++ lit "-" ++ zpad 2 (day t)
  ++ [sep]
  ++ zpad 2 (hour t) ++ lit ":" ++ zpad 2 (minute t) ++ lit ":"
  ++ zpad 2 (second t)
  ++ (if microsecond t =? 0 then [] else lit "." ++ zpad 6 (microsecond t))
  ++ lit "+00:00".

Definition isoformat : datetime -> pystr := isoformat_sep 84.   (* 'T' *)
Definition str_datetime : datetime -> pystr := isoformat_sep 32. (* ' ' *)

(** ** [json.dumps(..., ensure_ascii=True)] *)

Definition hex_digit (d : N) : N := if d <? 10 then 48 + d else 87 + d.

(** ['\\u{0:04x}'.format(c)] *)
Definition u_escape (c : N) : pystr :=
  [92; 117; hex_digit (c / 4096 mod 16); hex_digit (c / 256 mod 16);
   hex_digit (c / 16 mod 16); hex_digit (c mod 16)].

(** One character under [ensure_ascii]: the short escapes, printable ASCII
    as it is, [\uXXXX] for the rest, as a surrogate pair above the BMP. *)
Definition escape_char (c : N) : pystr :=
  if c =? 92 then [92; 92]
  else if c =? 34 then [92; 34]
  else if c =? 8 then [92; 98]
  else if c =? 12 then [92; 102]
  else if c =? 10 then [92; 110]
  else if c =? 13 then [92; 114]
  else if c =? 9 then [92; 116]
  else if (32 <=? c) && (c <=? 126) then [c]
  else if c <? 65536 then u_escape c
  else
    let n := c - 65536 in
    u_escape (N.lor 55296 (N.land (N.shiftr n 10) 1023))
    ++ u_escape (N.lor 56320 (N.land n 1023)).

Definition encode_basestring_ascii (s : pystr) : pystr :=
  [34] ++ flat_map escape_char s ++ [34].

Definition json_scalar (v : pyval) : pystr :=
  match v with
  | PNone => lit "null"
  | PBool true => lit "true"
  | PBool false => lit "false"
  | PInt z => str_int z
  | PStr s => encode_basestring_ascii s
  end.

(** The items of a dict after the first, each preceded by the item
    separator. *)
Fixpoint json_items_tail (d : list (pystr * pyval)) : pystr :=
  match d with
  | [] => []
  | (k, v) :: d' =>
      lit ", " ++ encode_basestring_ascii k ++ lit ": " ++ json_scalar v
      ++ json_items_tail d'
  end.

(** [json.dumps(d, ensure_ascii=True)] of a dict with [str] keys, given by its
    items in insertion order. *)
Definition json_dumps (d : list (pystr * pyval)) : pystr :=
  match d with
  | [] => lit "{}"
  | (k, v) :: d' =>
      lit "{" ++ encode_basestring_ascii k ++ lit ": " ++ json_scalar v
      ++ json_items_tail d' ++ lit "}"
  end.

(** ** Records and the two formatters *)

(** The dict built by [Log.log]: keys ["time"], ["level"], ["message"]. *)
Record record := {
  rec_time : datetime;
  rec_level : Level.t;
  rec_message : pyval
}.

Definition Formatter := record -> pystr.

(** [deepcopy] keeps the caller's dict as it was; records are values here. *)
Definition json_formatter : Formatter := fun r =>
  json_dumps
    [ (lit "time", PStr (isoformat (rec_time r)));
      (lit "level", PInt (Z.of_N (Level.value (rec_level r))));
      (lit "message", rec_message r) ].

Definition _colors (l : Level.t) : pystr :=
  match l with
  | Level.Error => 27 :: lit "[31m"
  | Level.Warning => 27 :: lit "[33m"
  | Level.Log => 27 :: lit "[32m"
  | Level.Info => 27 :: lit "[34m"
  | Level.Debug => 27 :: lit "[35m"
  end.

Definition _reset : pystr := 27 :: lit "[0m".

Definition stdout_formatter : Formatter := fun r =>
  let level_str :=
    _colors (rec_level r) ++ level_name_lower (rec_level r) ++ _reset in
  str_datetime (rec_time r) ++ lit " - " ++ level_str ++ lit " - "
  ++ py_str (rec_message r).

Definition hello : pystr := [104; 233; 108; 108; 111].   (* "héllo" *)

Definition sample_time : datetime :=
  {| year := 2024; month := 2; day := 29;
     hour := 23; minute := 59; second := 7; microsecond := 1500 |}.

(** ** The store, the outside world and the monad of the embedding *)

Definition ref := nat.   (* a reference to a [Log] instance *)
Definition fd := nat.    (* an open file object *)

(** An element of [*opaths]: [str | Path | file-like].  [Path(s)] is kept
    as the text [s] it was made from. *)
Inductive opath :=
| OStr (p : pystr)
| OPath (p : pystr)
| OFile (f : fd).

(** The attributes of a [Log] instance. *)
Record log_obj := {
  _file_levels : list Level.t;
  _levels : list Level.t;
  _stdout : bool;
  _opaths : list opath;
  _ofiles : list fd;
  _formatter : Formatter;
  _stdout_formatter : Formatter
}.

Definition set_file_levels (o : log_obj) (l : list Level.t) : log_obj :=
  {| _file_levels := l; _levels := _levels o; _stdout := _stdout o;
     _opaths := _opaths o; _ofiles := _ofiles o;
     _formatter := _formatter o; _stdout_formatter := _stdout_formatter o |}.

Definition set_levels (o : log_obj) (l : list Level.t) : log_obj :=
  {| _file_levels := _file_levels o; _levels := l; _stdout := _stdout o;
     _opaths := _opaths o; _ofiles := _ofiles o;
     _formatter := _formatter o; _stdout_formatter := _stdout_formatter o |}.

(** What the program does to the outside, in order. *)
Inductive event :=
| EOpen (p : pystr) (f : fd)      (* [open(p, "w")] returned [f] *)
| EWrite (f : fd) (text : pystr)  (* [f.write(text)] *)
| EPrint (text : pystr).          (* [print(text)] *)

Record world := {
  heap : list log_obj;         (* the [Log] instances, by reference *)
  _LOG : option ref;           (* the module global *)
  openable : pystr -> bool;    (* the paths [open(_, "w")] succeeds on *)
  next_fd : nat;               (* the next file object [open] returns *)
  trace : list event           (* the events so far *)
}.

Definition set_heap (w : world) (h : list log_obj) : world :=
  {| heap := h; _LOG := _LOG w; openable := openable w;
     next_fd := next_fd w; trace := trace w |}.

Definition set_LOG (w : world) (g : option ref) : world :=
  {| heap := heap w; _LOG := g; openable := openable w;
     next_fd := next_fd w; trace := trace w |}.

Definition emit (w : world) (e : event) : world :=
  {| heap := heap w; _LOG := _LOG w; openable := openable w;
     next_fd := next_fd w; trace := trace w ++ [e] |}.

(** A computation returns or raises, and in both cases leaves a world: what
    was done before an exception stays done. *)
Definition M (A : Type) : Type := world -> result A * world.

Definition ret {A} (a : A) : M A := fun w => (Return a, w).
Definition raise {A} (e : exn) : M A := fun w => (Raise e, w).
Definition bind {A B} (m : M A) (k : A -> M B) : M B := fun w =>
  match m w with
  | (Return a, w') => k a w'
  | (Raise e, w') => (Raise e, w')
  end.

#[global] Instance M_ret : MRet M := @ret.
#[global] Instance M_bind : MBind M := fun A B k m => bind m k.

Definition lift {A} (r : result A) : M A := fun w => (r, w).

Definition deref (r : ref) : M log_obj := fun w =>
  match heap w !! r with
  | Some o => (Return o, w)
  | None => (Raise ReferenceError, w)
  end.

Definition assign (r : ref) (o : log_obj) : M unit := fun w =>
  (Return tt, set_heap w (<[r := o]> (heap w))).

Definition alloc (o : log_obj) : M ref := fun w =>
  (Return (length (heap w)), set_heap w (heap w ++ [o])).

(** [l[-1]] *)
Definition list_last {A} (l : list A) : M A :=
  match last l with
  | Some a => ret a
  | None => raise IndexError
  end.

(** [level.value]: an attribute of [Level] members, not of [str]. *)
Definition dot_value (level : level_arg) : M Level.t :=
  match level with
  | ALevel l => ret l
  | AStr _ => raise AttributeError
  end.

Definition py_open (p : pystr) : M fd := fun w =>
  if openable w p then
    (Return (next_fd w),
     {| heap := heap w; _LOG := _LOG w; openable := openable w;
        next_fd := S (next_fd w);
        trace := trace w ++ [EOpen p (next_fd w)] |})
  else (Raise OSError, w).

Definition file_write (f : fd) (text : pystr) : M unit := fun w =>
  (Return tt, emit w (EWrite f text)).

Definition print (text : pystr) : M unit := fun w =>
  (Return tt, emit w (EPrint text)).

(** [for ofile in ofiles: ofile.write(text)] *)
Fixpoint write_all (ofiles : list fd) (text : pystr) : M unit :=
  match ofiles with
  | [] => ret tt
  | f :: rest => file_write f text ;; write_all rest text
  end.

(** The loop of [Log.__init__] over [*opaths]: the new [_opaths] and
    [_ofiles]. *)
Fixpoint open_all (opaths : list opath) : M (list opath * list fd) :=
  match opaths with
  | [] => ret ([], [])
  | op :: rest =>
      '(op', f) ← match op with
                  | OStr p => f ← py_open p; ret (OPath p, f)
                  | OPath p => f ← py_open p; ret (OPath p, f)
                  | OFile f => ret (OFile f, f)
                  end;
      '(ops, fs) ← open_all rest;
      ret (op' :: ops, f :: fs)
  end.

(** ** [class Log] *)

Module Log.

(** The call [Log(...)] with the positional arguments [opaths] and the
    keyword arguments; a keyword argument left out is [None] here.  The
    instance enters the store once [__init__] has run; when [open] raises,
    no instance is returned. *)
Definition __init__ (opaths : list opath)
    (file_level : option Level.t) (formatter : option Formatter)
    (stdout : option bool) (stdout_level : option Level.t)
    (stdout_formatter' : option Formatter) : M ref :=
  let file_level := default Level.Log file_level in
  let formatter := default json_formatter formatter in
  let stdout := default true stdout in
  let stdout_formatter := default stdout_formatter stdout_formatter' in
  '(paths, files) ← open_all opaths;
  alloc {| _file_levels := [file_level];
           _levels := match stdout_level with
                      | None => [file_level]
                      | Some l => [l]
                      end;
           _stdout := stdout;
           _opaths := paths;
           _ofiles := files;
           _formatter := formatter;
           _stdout_formatter := stdout_formatter |}.

Definition set_global (self : ref) : M (option ref) := fun w =>
  (Return (_LOG w), set_LOG w (Some self)).

(** The result is the Python return value: the popped level, or [None]
    after a push. *)
Definition file_level (self : ref) (new_level : option level_arg)
    : M (option Level.t) :=
  match new_level with
  | None =>
      o ← deref self;
      if (length (_file_levels o) <? 2)%nat then raise (ValueError None)
      else
        top ← list_last (_file_levels o);
        assign self (set_file_levels o (removelast (_file_levels o))) ;;
        ret (Some top)
  | Some new_level =>
      new_level ← lift (_ensure_level new_level);
      o ← deref self;
      assign self (set_file_levels o (_file_levels o ++ [new_level])) ;;
      ret None
  end.

Definition level (self : ref) (new_level : option level_arg)
    : M (option Level.t) :=
  match new_level with
  | None =>
      o ← deref self;
      if (length (_levels o) <? 2)%nat then raise (ValueError None)
      else
        top ← list_last (_levels o);
        assign self (set_levels o (removelast (_levels o))) ;;
        ret (Some top)
  | Some new_level =>
      new_level ← lift (_ensure_level new_level);
      o ← deref self;
      assign self (set_levels o (_levels o ++ [new_level])) ;;
      ret None
  end.

(** [now] is what [dt.datetime.now().astimezone(dt.timezone.utc)] returns
    at the call; [level] left out is [Level.Log].  The record is built
    before the first test in the source, with the raw [level]; it is used
    only after [level.value] has been read, so it is built here with the
    [Level] that read returned. *)
Definition log (self : ref) (now : datetime) (message : pyval)
    (level : option level_arg) : M (option Level.t) :=
  let level := default (ALevel Level.Log) level in
  o ← deref self;
  file_top ← list_last (_file_levels o);
  lv ← dot_value level;
  let record :=
    {| rec_time := now; rec_level := lv; rec_message := message |} in
  (if Level.value lv <=? Level.value file_top
   then write_all (_ofiles o) (_formatter o record ++ [10])
   else ret tt) ;;
  (if _stdout o
   then
     top ← list_last (_levels o);
     if Level.value lv <=? Level.value top
     then print (_stdout_formatter o record)
     else ret tt
   else ret tt) ;;
  ret None.

Definition error (self : ref) (now : datetime) (message : pyval) :=
  log self now message (Some (ALevel Level.Error)).

Definition warn (self : ref) (now : datetime) (message : pyval) :=
  log self now message (Some (ALevel Level.Warning)).

Definition info (self : ref) (now : datetime) (message : pyval) :=
  log self now message (Some (ALevel Level.Info)).

Definition debug (self : ref) (now : datetime) (message : pyval) :=
  log self now message (Some (ALevel Level.Debug)).

Definition close (self : ref) : M (option Level.t) :=
  raise NotImplementedError.

End Log.

(** ** The module-level functions over the global logger

    They return nothing: the value of the method they call is dropped. *)

Definition file_level (level : option level_arg) : M (option Level.t) :=
  fun w =>
    match _LOG w with
    | Some g => (Log.file_level g level ;; ret None) w
    | None => ret None w
    end.

Definition level (level : option level_arg) : M (option Level.t) :=
  fun w =>
    match _LOG w with
    | Some g => (Log.level g level ;; ret None) w
    | None => ret None w
    end.

Definition log (now : datetime) (message : pyval)
    (level : option level_arg) : M (option Level.t) :=
  fun w =>
    match _LOG w with
    | Some g => (Log.log g now message level ;; ret None) w
    | None => ret None w
    end.

Definition error (now : datetime) (message : pyval) :=
  log now message (Some (ALevel Level.Error)).

Definition warn (now : datetime) (message : pyval) :=
  log now message (Some (ALevel Level.Warning)).

Definition info (now : datetime) (message : pyval) :=
  log now message (Some (ALevel Level.Info)).

Definition debug (now : datetime) (message : pyval) :=
  log now message (Some (ALevel Level.Debug)).

(** The world before the module is imported, and the module body:
    [_LOG = None] and then [Log().set_global()]. *)
Definition world0 (can_open : pystr -> bool) : world :=
  {| heap := []; _LOG := None; openable := can_open; next_fd := 0%nat;
     trace := [] |}.

Definition module_init : M unit :=
  g ← Log.__init__ [] None None None None None;
  Log.set_global g ;;
  ret tt.

Definition imported (can_open : pystr -> bool) : world :=
  snd (module_init (world0 can_open)).

(** ** A decoder for the lines of [json_formatter]

    The repository has no parser; this one reads back what [json.dumps]
    and [isoformat] print, as [json.loads], [datetime.fromisoformat] and
    [Level(value)] do on such a line. *)

Definition is_digit (c : N) : bool := (48 <=? c) && (c <=? 57).

(** Exactly [k] decimal digits, most significant first. *)
Fixpoint read_digits (k : nat) (acc : N) (s : pystr) : option (N * pystr) :=
  match k with
  | O => Some (acc, s)
  | S k' =>
      match s with
      | c :: s' =>
          if is_digit c then read_digits k' (10 * acc + (c - 48)) s' else None
      | [] => None
      end
  end.

(** The literal [p] at the front of [s]. *)
Fixpoint expect (p s : pystr) : option pystr :=
  match p, s with
  | [], _ => Some s
  | c :: p', d :: s' => if c =? d then expect p' s' else None
  | _ :: _, [] => None
  end.

Definition fromisoformat (s : pystr) : option datetime :=
  '(y, s) ← read_digits 4 0 s;
  s ← expect (lit "-") s;
  '(mo, s) ← read_digits 2 0 s;
  s ← expect (lit "-") s;
  '(d, s) ← read_digits 2 0 s;
  s ← expect (lit "T") s;
  '(h, s) ← read_digits 2 0 s;
  s ← expect (lit ":") s;
  '(mi, s) ← read_digits 2 0 s;
  s ← expect (lit ":") s;
  '(sec, s) ← read_digits 2 0 s;
  '(us, s) ← match s with
             | 46 :: s' => read_digits 6 0 s'
             | _ => Some (0, s)
             end;
  s ← expect (lit "+00:00") s;
  let t := {| year := y; month := mo; day := d; hour := h; minute := mi;
              second := sec; microsecond := us |} in
  match s with
  | [] => if datetime_valid t then Some t else None
  | _ :: _ => None
  end.

Definition hex_value (c : N) : option N :=
  if is_digit c then Some (c - 48)
  else if (97 <=? c) && (c <=? 102) then Some (c - 87)
  else if (65 <=? c) && (c <=? 70) then Some (c - 55)
  else None.

(** A decoded unit of a JSON string: a character written as it is, or the
    value of a [\uXXXX] escape, which may be half of a surrogate pair. *)
Inductive unit_tok :=
| Raw (c : N)
| Esc (c : N).

Definition short_escape (e : N) : option N :=
  if e =? 34 then Some 34
  else if e =? 92 then Some 92
  else if e =? 47 then Some 47
  else if e =? 98 then Some 8
  else if e =? 102 then Some 12
  else if e =? 110 then Some 10
  else if e =? 114 then Some 13
  else if e =? 116 then Some 9
  else None.

(** The body of a JSON string up to its closing quote, and what follows. *)
Fixpoint read_string_body (s : pystr) : option (list unit_tok * pystr) :=
  match s with
  | [] => None
  | c :: s' =>
      if c =? 34 then Some ([], s')
      else if c =? 92 then
        match s' with
        | [] => None
        | e :: s'' =>
            if e =? 117 then
              match s'' with
              | h3 :: h2 :: h1 :: h0 :: s3 =>
                  v3 ← hex_value h3; v2 ← hex_value h2;
                  v1 ← hex_value h1; v0 ← hex_value h0;
                  '(toks, rest) ← read_string_body s3;
                  Some (Esc (4096 * v3 + 256 * v2 + 16 * v1 + v0) :: toks, rest)
              | _ => None
              end
            else
              c' ← short_escape e;
              '(toks, rest) ← read_string_body s'';
              Some (Raw c' :: toks, rest)
        end
      else if c <? 32 then None
      else
        '(toks, rest) ← read_string_body s';
        Some (Raw c :: toks, rest)
  end.

Definition is_high (c : N) : bool := (55296 <=? c) && (c <=? 56319).
Definition is_low (c : N) : bool := (56320 <=? c) && (c <=? 57343).

(** Escaped surrogate pairs become one code point. *)
Fixpoint join_surrogates (toks : list unit_tok) : pystr :=
  match toks with
  | [] => []
  | Raw c :: rest => c :: join_surrogates rest
  | Esc h :: rest =>
      match rest with
      | Esc l :: rest' =>
          if is_high h && is_low l
          then 65536 + N.lor (N.shiftl (h - 55296) 10) (l - 56320)
               :: join_surrogates rest'
          else h :: join_surrogates rest
      | _ => h :: join_surrogates rest
      end
  end.

Definition read_json_string (s : pystr) : option (pystr * pystr) :=
  match s with
  | 34 :: s' =>
      '(toks, rest) ← read_string_body s';
      Some (join_surrogates toks, rest)
  | _ => None
  end.

(** A run of decimal digits, as long as it goes. *)
Fixpoint read_nat (acc : N) (s : pystr) : N * pystr :=
  match s with
  | c :: s' =>
      if is_digit c then read_nat (10 * acc + (c - 48)) s' else (acc, s)
  | [] => (acc, s)
  end.

(** A JSON integer: an optional minus sign and a run of digits. *)
Definition read_int (s : pystr) : option (Z * pystr) :=
  match s with
  | [] => None
  | c :: s' =>
      if c =? 45 then
        match s' with
        | d :: _ =>
            if is_digit d
            then let '(n, rest) := read_nat 0 s' in Some (- Z.of_N n, rest)%Z
            else None
        | [] => None
        end
      else if is_digit c
      then let '(n, rest) := read_nat 0 s in Some (Z.of_N n, rest)
      else None
  end.

(** A scalar JSON value, told by its first character. *)
Definition read_scalar (s : pystr) : option (pyval * pystr) :=
  match s with
  | [] => None
  | c :: _ =>
      if c =? 34 then '(str, rest) ← read_json_string s; Some (PStr str, rest)
      else if c =? 110 then rest ← expect (lit "null") s; Some (PNone, rest)
      else if c =? 116 then
        rest ← expect (lit "true") s; Some (PBool true, rest)
      else if c =? 102 then
        rest ← expect (lit "false") s; Some (PBool false, rest)
      else '(z, rest) ← read_int s; Some (PInt z, rest)
  end.

(** [Level(value)] *)
Definition level_of_value (z : Z) : option Level.t :=
  List.find (fun l => Z.eqb (Z.of_N (Level.value l)) z) Level.all.

(** The key [k] and the separator after it. *)
Definition read_key (k : string) (s : pystr) : option pystr :=
  '(key, rest) ← read_json_string s;
  if pystr_eqb key (lit k) then expect (lit ": ") rest else None.

Definition parse_record (s : pystr) : option record :=
  s ← expect (lit "{") s;
  s ← read_key "time" s;
  '(tstr, s) ← read_json_string s;
  t ← fromisoformat tstr;
  s ← expect (lit ", ") s;
  s ← read_key "level" s;
  '(z, s) ← read_int s;
  l ← level_of_value z;
  s ← expect (lit ", ") s;
  s ← read_key "message" s;
  '(m, s) ← read_scalar s;
  s ← expect (lit "}") s;
  match s with
  | [] => Some {| rec_time := t; rec_level := l; rec_message := m |}
  | _ :: _ => None
  end.

Definition is_ascii (c : N) : bool := c <? 128.

(** A character [json.dumps] writes as it is. *)
Definition plain (c : N) : bool :=
  (32 <=? c) && (c <=? 126) && negb (c =? 34) && negb (c =? 92).

(** A code point of a [str] that is not a surrogate. *)
Definition scalar_value (c : N) : bool :=
  (c <? 1114112) && negb (is_high c || is_low c).

(** The units the decoder reads for one encoded character. *)
Definition units_of_char (c : N) : list unit_tok :=
  if (c =? 92) || (c =? 34) || (c =? 8) || (c =? 12) || (c =? 10)
     || (c =? 13) || (c =? 9) || ((32 <=? c) && (c <=? 126))
  then [Raw c]
  else if c <? 65536 then [Esc c]
  else
    let n := c - 65536 in
    [Esc (N.lor 55296 (N.land (N.shiftr n 10) 1023));
     Esc (N.lor 56320 (N.land n 1023))].

(** The text after a number does not go on with a digit. *)
Definition no_digit_head (s : pystr) : Prop :=
  match s with
  | c :: _ => is_digit c = false
  | [] => True
  end.

(** What the decoder gives back unchanged: text without surrogate code
    points, and every other payload. *)
Definition message_ok (m : pyval) : bool :=
  match m with
  | PStr s => forallb scalar_value s
  | _ => true
  end.

(** ** Calls and reachable worlds

    A call of the public interface, with the references it is given.  The
    convenience methods [error], [warn], [info] and [debug] are calls of
    [log] and need no constructor of their own. *)

Inductive call :=
| CNew (opaths : list opath) (file_level : option Level.t)
       (formatter : option Formatter) (stdout : option bool)
       (stdout_level : option Level.t) (stdout_formatter : option Formatter)
| CSetGlobal (self : ref)
| CLogFileLevel (self : ref) (new_level : option level_arg)
| CLogLevel (self : ref) (new_level : option level_arg)
| CLogLog (self : ref) (now : datetime) (message : pyval)
          (level : option level_arg)
| CLogClose (self : ref)
| CFileLevel (level : option level_arg)
| CLevel (level : option level_arg)
| CLog (now : datetime) (message : pyval) (level : option level_arg).

(** The world a call leaves, whether it returns or raises. *)
Definition exec (c : call) (w : world) : world :=
  match c with
  | CNew ops fl fmt so sl sfmt => snd (Log.__init__ ops fl fmt so sl sfmt w)
  | CSetGlobal self => snd (Log.set_global self w)
  | CLogFileLevel self a => snd (Log.file_level self a w)
  | CLogLevel self a => snd (Log.level self a w)
  | CLogLog self now m l => snd (Log.log self now m l w)
  | CLogClose self => snd (Log.close self w)
  | CFileLevel a => snd (file_level a w)
  | CLevel a => snd (level a w)
  | CLog now m l => snd (log now m l w)
  end.

(** A method is called on an instance that exists. *)
Definition call_ok (w : world) (c : call) : Prop :=
  match c with
  | CSetGlobal self | CLogFileLevel self _ | CLogLevel self _
  | CLogLog self _ _ _ | CLogClose self => is_Some (heap w !! self)
  | _ => True
  end.

Definition is_set_global (c : call) : bool :=
  match c with CSetGlobal _ => true | _ => false end.

Definition exec_all (cs : list call) (w : world) : world :=
  fold_left (fun w c => exec c w) cs w.

(** The worlds a program can be in after importing the module. *)
Inductive reachable : world -> Prop :=
| reach_import can_open : reachable (imported can_open)
| reach_call w c : reachable w -> call_ok w c -> reachable (exec c w).

(** The class invariant: neither level stack is empty. *)
Definition wf_obj (o : log_obj) : Prop :=
  _file_levels o <> [] /\ _levels o <> [].

(** Every instance is well formed and the global logger is one of them. *)
Definition inv (w : world) : Prop :=
  Forall wf_obj (heap w) /\
  exists g, _LOG w = Some g /\ is_Some (heap w !! g).

(** ** Sample worlds *)

(** The world in which the default global logger has had [Debug] pushed on
    its file stack and [Info] on its stdout stack. *)
Definition pushed_world : world :=
  snd ((file_level (Some (ALevel Level.Debug)) ;;
        level (Some (AStr (lit "info")))) (imported (fun _ => true))).

(** A second instance next to the default global logger: one file sink,
    file level [Debug], no stdout. *)
Definition two_loggers : world :=
  snd (Log.__init__ [OFile 3%nat] (Some Level.Debug) None (Some false)
         None None (imported (fun _ => true))).

(** The world [w] with more events. *)
Definition add_events (w : world) (evs : list event) : world :=
  {| heap := heap w; _LOG := _LOG w; openable := openable w;
     next_fd := next_fd w; trace := trace w ++ evs |}.

(** The threshold a stack stands for: its last element. *)
Definition threshold (stack : list Level.t) : option Level.t := last stack.

(** ** Definitions for further properties *)

(** A lower-case ASCII letter. *)
Definition is_lower_az (c : N) : bool := (97 <=? c) && (c <=? 122).

(** The objects of two stores are the same but for the level stacks of the
    instance [self]. *)
Definition same_but_file_levels (o o' : log_obj) : Prop :=
  _levels o' = _levels o /\ _stdout o' = _stdout o /\
  _opaths o' = _opaths o /\ _ofiles o' = _ofiles o /\
  _formatter o' = _formatter o /\ _stdout_formatter o' = _stdout_formatter o.

Definition same_but_levels (o o' : log_obj) : Prop :=
  _file_levels o' = _file_levels o /\ _stdout o' = _stdout o /\
  _opaths o' = _opaths o /\ _ofiles o' = _ofiles o /\
  _formatter o' = _formatter o /\ _stdout_formatter o' = _stdout_formatter o.

(** A client that pushes the levels [vs] in order, and one that pops [n]
    times and collects what the pops return. *)
Fixpoint push_all (push : Level.t -> M (option Level.t)) (vs : list Level.t)
    : M unit :=
  match vs with
  | [] => ret tt
  | v :: vs' => push v ;; push_all push vs'
  end.

Fixpoint pop_n (pop : M (option Level.t)) (n : nat)
    : M (list (option Level.t)) :=
  match n with
  | O => ret []
  | S n' => x ← pop; xs ← pop_n pop n'; ret (x :: xs)
  end.

(** The events of one [log] call on the instance [o] for the record [r]:
    writes when [to_files], a print when stdout is on and [to_console]. *)
Definition emitted (o : log_obj) (r : record) (to_files to_console : bool)
    : list event :=
  (if to_files
   then map (fun f => EWrite f (_formatter o r ++ [10])) (_ofiles o)
   else [])
  ++ (if _stdout o && to_console
      then [EPrint (_stdout_formatter o r)] else []).



(** An event that a [log] call on the instance [o] may add. *)
Definition own_output (o : log_obj) (e : event) : Prop :=
  match e with
  | EWrite f _ => f ∈ _ofiles o
  | EPrint _ => _stdout o = true
  | EOpen _ _ => False
  end.

(** The path of a positional argument of the constructor that is given as
    a path, and the argument as the constructor stores it. *)
Definition opath_path (op : opath) : option pystr :=
  match op with
  | OStr p | OPath p => Some p
  | OFile _ => None
  end.

Definition as_path (op : opath) : opath :=
  match op with
  | OStr p => OPath p
  | _ => op
  end.

(** The sinks for the arguments [ops] when [open] returns the file objects
    [n], [n + 1], ...: a file-like argument is its own sink. *)
Fixpoint sink_fds (n : nat) (ops : list opath) : list fd :=
  match ops with
  | [] => []
  | OFile f :: rest => f :: sink_fds n rest
  | _ :: rest => n :: sink_fds (S n) rest
  end.

(** The paths up to the first one that cannot be opened. *)
Fixpoint opened_prefix (can_open : pystr -> bool) (ps : list pystr)
    : list pystr :=
  match ps with
  | [] => []
  | p :: rest => if can_open p then p :: opened_prefix can_open rest else []
  end.

Fixpoint open_events (n : nat) (ps : list pystr) : list event :=
  match ps with
  | [] => []
  | p :: rest => EOpen p n :: open_events (S n) rest
  end.

(** What holds of every instance the program can make. *)
Definition obj_inv (o : log_obj) : Prop :=
  wf_obj o /\ length (_opaths o) = length (_ofiles o) /\
  Forall (fun op => as_path op = op) (_opaths o).

(** A printable ASCII character. *)
Definition printable (c : N) : bool := (32 <=? c) && (c <=? 126).

(** A timestamp as [isoformat(sep)] prints it, at the front of a text. *)
Definition read_datetime (sep : N) (s : pystr) : option (datetime * pystr) :=
  '(y, s) ← read_digits 4 0 s;
  s ← expect (lit "-") s;
  '(mo, s) ← read_digits 2 0 s;
  s ← expect (lit "-") s;
  '(d, s) ← read_digits 2 0 s;
  s ← expect [sep] s;
  '(h, s) ← read_digits 2 0 s;
  s ← expect (lit ":") s;
  '(mi, s) ← read_digits 2 0 s;
  s ← expect (lit ":") s;
  '(sec, s) ← read_digits 2 0 s;
  '(us, s) ← match s with
             | 46 :: s' => read_digits 6 0 s'
             | _ => Some (0, s)
             end;
  s ← expect (lit "+00:00") s;
  Some ({| year := y; month := mo; day := d; hour := h; minute := mi;
           second := sec; microsecond := us |}, s).

(** * Properties *)

(** ** Examples *)

Example ensure_level_bogus :
  _ensure_level (AStr (lit "bogus")) =
  Raise (ValueError (Some (lit "Invalid level name: bogus"))).
Proof. reflexivity. Qed.

Example json_formatter_hello :
  json_formatter {| rec_time := sample_time; rec_level := Level.Info;
                    rec_message := PStr hello |}
  = lit "{" ++ quoted "time" ++ lit ": "
    ++ quoted "2024-02-29T23:59:07.001500+00:00" ++ lit ", "
    ++ quoted "level" ++ lit ": 4, "
    ++ quoted "message" ++ lit ": " ++ quoted "h\u00e9llo" ++ lit "}".
Proof. reflexivity. Qed.

Example stdout_formatter_hello :
  stdout_formatter {| rec_time := sample_time; rec_level := Level.Info;
                      rec_message := PStr (lit "x") |}
  = lit "2024-02-29 23:59:07.001500+00:00 - " ++ [27] ++ lit "[34minfo"
    ++ [27] ++ lit "[0m - x".
Proof. reflexivity. Qed.

(** The scenario of three calls on a logger with file level [Warning] and
    no stdout: the [Log] message is filtered out. *)
Example warning_file_level_scenario :
  let prog :=
    a ← Log.__init__ [OFile 7%nat] (Some Level.Warning)
          (Some (fun r => py_str (rec_message r))) (Some false) None None;
    Log.log a sample_time (PStr (lit "a")) (Some (ALevel Level.Error)) ;;
    Log.log a sample_time (PStr (lit "b")) None ;;
    Log.log a sample_time (PStr (lit "c")) (Some (ALevel Level.Warning)) in
  trace (snd (prog (imported (fun _ => true))))
  = [EWrite 7%nat (lit "a" ++ [10]); EWrite 7%nat (lit "c" ++ [10])].
Proof. reflexivity. Qed.

(** A path that cannot be opened aborts the construction; the file opened
    before it stays open. *)
Example init_open_failure :
  let can_open p := pystr_eqb p (lit "a.log") in
  let '(res, w) :=
    Log.__init__ [OStr (lit "a.log"); OPath (lit "b.log")] None None None
      None None (imported can_open) in
  res = Raise OSError /\ length (heap w) = 1%nat /\
  trace w = [EOpen (lit "a.log") 0%nat].
Proof. repeat split. Qed.

(** Outside the Basic Multilingual Plane [json.dumps] writes a surrogate
    pair, which the decoder joins again. *)
Example json_roundtrip_astral :
  let r := {| rec_time := sample_time; rec_level := Level.Debug;
              rec_message := PStr [128512; 34; 10; 0; 127] |} in
  json_scalar (rec_message r)
  = quoted "\ud83d\ude00\" ++ lit "\n\u0000\u007f" ++ [34] /\
  parse_record (json_formatter r) = Some r.
Proof. split; reflexivity. Qed.

(** ** The monad and the store *)

Ltac unmonad :=
  unfold mbind, M_bind, bind, mret, M_ret, ret, raise, lift, deref, assign,
    list_last, dot_value, file_write, print in *.

Lemma world_eta w :
  {| heap := heap w; _LOG := _LOG w; openable := openable w;
     next_fd := next_fd w; trace := trace w |} = w.
Proof. now destruct w. Qed.

Lemma add_events_nil w : add_events w [] = w.
Proof. unfold add_events. rewrite app_nil_r. apply world_eta. Qed.

Lemma add_events_app w a b :
  add_events (add_events w a) b = add_events w (a ++ b).
Proof. unfold add_events; cbn. now rewrite app_assoc. Qed.

Lemma emit_add_events w e : emit w e = add_events w [e].
Proof. reflexivity. Qed.

Lemma set_file_levels_id o : set_file_levels o (_file_levels o) = o.
Proof. now destruct o. Qed.

Lemma set_levels_id o : set_levels o (_levels o) = o.
Proof. now destruct o. Qed.

Lemma set_heap_id w : set_heap w (heap w) = w.
Proof. now destruct w. Qed.

Lemma write_all_events ofiles text w :
  write_all ofiles text w =
  (Return tt, add_events w (map (fun f => EWrite f text) ofiles)).
Proof.
  revert w. induction ofiles as [|f rest IH]; intros w; cbn.
  - now rewrite add_events_nil.
  - unmonad. rewrite IH, emit_add_events, add_events_app. reflexivity.
Qed.

Lemma last_snoc_some {A} (l : list A) (x : A) : last (l ++ [x]) = Some x.
Proof. apply last_snoc. Qed.

Lemma last_nonempty {A} (l : list A) : l <> [] -> exists x, last l = Some x.
Proof.
  intros H. destruct (last l) as [x|] eqn:E; [eauto|].
  apply last_None in E. contradiction.
Qed.

(** ** Severity names *)

Lemma dict_get_names_spec s l :
  dict_get level_names s = Some l <-> s = level_name_lower l.
Proof.
  unfold level_names, dict_get, pystr_eqb.
  repeat case_bool_decide; subst; split; intros Hget;
    try (inversion Hget; subst; reflexivity);
    try (destruct l; first [ reflexivity | discriminate | congruence ]);
    subst s; destruct l; exfalso; auto.
Qed.

Lemma ensure_level_name (l : Level.t) :
  _ensure_level (AStr (level_name_lower l)) = Return l.
Proof. now destruct l. Qed.

(** C3: [_ensure_level] returns [l] on the lower-case name of [l], returns a
    [Level] unchanged, raises [ValueError] ("Invalid level name: ...") on
    every string that is not one of the five lower-case names, and so
    succeeds on a string exactly when it is such a name. *)
Theorem ensure_level_exact (s : pystr) (l : Level.t) :
  _ensure_level (AStr (level_name_lower l)) = Return l /\
  _ensure_level (ALevel l) = Return l /\
  ((forall l', s <> level_name_lower l') ->
   _ensure_level (AStr s)
   = Raise (ValueError (Some (lit "Invalid level name: " ++ s)))) /\
  (_ensure_level (AStr s) = Return l <-> s = level_name_lower l).
Proof.
  split; [apply ensure_level_name|]. split; [reflexivity|]. split.
  - intros Hs. unfold _ensure_level.
    destruct (dict_get level_names s) as [l'|] eqn:E; [|reflexivity].
    apply dict_get_names_spec in E. now destruct (Hs l').
  - unfold _ensure_level.
    destruct (dict_get level_names s) as [l'|] eqn:E.
    + apply dict_get_names_spec in E. split.
      * intros H. inversion H; subst. reflexivity.
      * intros ->. f_equal. destruct l, l'; first [reflexivity | discriminate].
    + split; [discriminate|]. intros Hs.
      apply dict_get_names_spec in Hs. congruence.
Qed.

Lemma ensure_level_exact_witness :
  _ensure_level (AStr (lit "bogus"))
  = Raise (ValueError (Some (lit "Invalid level name: " ++ lit "bogus"))).
Proof.
  apply (ensure_level_exact (lit "bogus") Level.Error).
  intros l'; destruct l'; discriminate.
Defined.

(** ** The level stacks *)

(** C4: on an instance whose file (resp. stdout) level stack has length 1,
    popping raises [ValueError] and leaves the whole world as it was: the
    stack and the threshold it stands for are unchanged. *)
Theorem pop_singleton_raises (w : world) (self : ref) (o : log_obj) :
  heap w !! self = Some o ->
  (length (_file_levels o) = 1%nat ->
   Log.file_level self None w = (Raise (ValueError None), w) /\
   (_file_levels <$> heap (snd (Log.file_level self None w)) !! self)
   = Some (_file_levels o)) /\
  (length (_levels o) = 1%nat ->
   Log.level self None w = (Raise (ValueError None), w) /\
   (_levels <$> heap (snd (Log.level self None w)) !! self)
   = Some (_levels o)).
Proof.
  intros Hself. split; intros Hlen.
  - assert (E : Log.file_level self None w = (Raise (ValueError None), w)).
    { unfold Log.file_level. unmonad. now rewrite Hself, Hlen. }
    rewrite E. cbn. now rewrite Hself.
  - assert (E : Log.level self None w = (Raise (ValueError None), w)).
    { unfold Log.level. unmonad. now rewrite Hself, Hlen. }
    rewrite E. cbn. now rewrite Hself.
Qed.

Lemma pop_singleton_raises_witness :
  Log.file_level 0%nat None (imported (fun _ => true))
  = (Raise (ValueError None), imported (fun _ => true)).
Proof.
  eapply (pop_singleton_raises (imported (fun _ => true)) 0%nat);
    reflexivity.
Defined.

(** The equations of push and pop on each stack. *)

Lemma file_level_push (w : world) (self : ref) (o : log_obj)
    (a : level_arg) (l : Level.t) :
  heap w !! self = Some o -> _ensure_level a = Return l ->
  Log.file_level self (Some a) w
  = (Return None,
     set_heap w
       (<[self := set_file_levels o (_file_levels o ++ [l])]> (heap w))).
Proof.
  intros Hself Ha. unfold Log.file_level. unmonad.
  now rewrite Ha, Hself.
Qed.

Lemma file_level_pop (w : world) (self : ref) (o : log_obj) (top : Level.t) :
  heap w !! self = Some o -> (2 <= length (_file_levels o))%nat ->
  last (_file_levels o) = Some top ->
  Log.file_level self None w
  = (Return (Some top),
     set_heap w
       (<[self := set_file_levels o (removelast (_file_levels o))]> (heap w))).
Proof.
  intros Hself Hlen Htop. unfold Log.file_level. unmonad.
  rewrite Hself.
  replace (length (_file_levels o) <? 2)%nat with false
    by (symmetry; apply Nat.ltb_ge; lia).
  now rewrite Htop.
Qed.

Lemma level_push (w : world) (self : ref) (o : log_obj)
    (a : level_arg) (l : Level.t) :
  heap w !! self = Some o -> _ensure_level a = Return l ->
  Log.level self (Some a) w
  = (Return None,
     set_heap w (<[self := set_levels o (_levels o ++ [l])]> (heap w))).
Proof.
  intros Hself Ha. unfold Log.level. unmonad.
  now rewrite Ha, Hself.
Qed.

Lemma level_pop (w : world) (self : ref) (o : log_obj) (top : Level.t) :
  heap w !! self = Some o -> (2 <= length (_levels o))%nat ->
  last (_levels o) = Some top ->
  Log.level self None w
  = (Return (Some top),
     set_heap w (<[self := set_levels o (removelast (_levels o))]> (heap w))).
Proof.
  intros Hself Hlen Htop. unfold Log.level. unmonad.
  rewrite Hself.
  replace (length (_levels o) <? 2)%nat with false
    by (symmetry; apply Nat.ltb_ge; lia).
  now rewrite Htop.
Qed.

Lemma bind_return {A B} (m : M A) (k : A -> M B) (w w' : world) (a : A) :
  m w = (Return a, w') -> (m ≫= k) w = k a w'.
Proof. intros E. unfold mbind, M_bind, bind. now rewrite E. Qed.

Lemma bind_raise {A B} (m : M A) (k : A -> M B) (w w' : world) (e : exn) :
  m w = (Raise e, w') -> (m ≫= k) w = (Raise e, w').
Proof. intros E. unfold mbind, M_bind, bind. now rewrite E. Qed.

Lemma set_heap_set_heap w h h' : set_heap (set_heap w h) h' = set_heap w h'.
Proof. reflexivity. Qed.

Lemma push_then_pop_file (w : world) (self : ref) (o : log_obj)
    (v : Level.t) :
  heap w !! self = Some o -> _file_levels o <> [] ->
  (Log.file_level self (Some (ALevel v)) ;; Log.file_level self None) w
  = (Return (Some v), w).
Proof.
  intros Hself Hne.
  assert (Hlt : (self < length (heap w))%nat) by (eapply lookup_lt_Some; eauto).
  erewrite bind_return by (eapply file_level_push; eauto; reflexivity).
  rewrite file_level_pop
    with (o := set_file_levels o (_file_levels o ++ [v])) (top := v).
  - cbn [set_heap heap set_file_levels _file_levels]. rewrite removelast_last.
    rewrite list_insert_insert_eq.
    change (set_file_levels _ (_file_levels o)) with
      (set_file_levels o (_file_levels o)).
    rewrite set_heap_set_heap, set_file_levels_id.
    rewrite list_insert_id by exact Hself.
    now rewrite set_heap_id.
  - cbn. now apply list_lookup_insert_eq.
  - cbn. rewrite length_app. cbn. destruct (_file_levels o); [easy|cbn; lia].
  - cbn. apply last_snoc.
Qed.

Lemma push_then_pop_stdout (w : world) (self : ref) (o : log_obj)
    (v : Level.t) :
  heap w !! self = Some o -> _levels o <> [] ->
  (Log.level self (Some (ALevel v)) ;; Log.level self None) w
  = (Return (Some v), w).
Proof.
  intros Hself Hne.
  assert (Hlt : (self < length (heap w))%nat) by (eapply lookup_lt_Some; eauto).
  erewrite bind_return by (eapply level_push; eauto; reflexivity).
  rewrite level_pop with (o := set_levels o (_levels o ++ [v])) (top := v).
  - cbn [set_heap heap set_levels _levels]. rewrite removelast_last.
    rewrite list_insert_insert_eq.
    change (set_levels _ (_levels o)) with (set_levels o (_levels o)).
    rewrite set_heap_set_heap, set_levels_id.
    rewrite list_insert_id by exact Hself.
    now rewrite set_heap_id.
  - cbn. now apply list_lookup_insert_eq.
  - cbn. rewrite length_app. cbn. destruct (_levels o); [easy|cbn; lia].
  - cbn. apply last_snoc.
Qed.

(** C5: on an instance whose stacks are not empty (the class invariant),
    pushing a severity [v] and popping at once returns [v] and gives back
    the world as it was, for the file stack and for the stdout stack; so
    whatever runs next (any later [log] call in particular) runs as if the
    pair had not happened. *)
Theorem push_pop_identity (w : world) (self : ref) (o : log_obj)
    (v : Level.t) :
  heap w !! self = Some o -> wf_obj o ->
  ((Log.file_level self (Some (ALevel v)) ;; Log.file_level self None) w
   = (Return (Some v), w) /\
   forall A (k : M A),
     (Log.file_level self (Some (ALevel v)) ;; Log.file_level self None ;; k) w
     = k w) /\
  ((Log.level self (Some (ALevel v)) ;; Log.level self None) w
   = (Return (Some v), w) /\
   forall A (k : M A),
     (Log.level self (Some (ALevel v)) ;; Log.level self None ;; k) w
     = k w).
Proof.
  intros Hself [Hf Hs].
  pose proof (push_then_pop_file w self o v Hself Hf) as Ef.
  pose proof (push_then_pop_stdout w self o v Hself Hs) as Es.
  split; (split; [assumption|]); intros A k.
  - revert Ef. unfold mbind, M_bind, bind.
    destruct (Log.file_level self (Some (ALevel v)) w) as [[a|e] w1];
      [|discriminate].
    intros ->. reflexivity.
  - revert Es. unfold mbind, M_bind, bind.
    destruct (Log.level self (Some (ALevel v)) w) as [[a|e] w1];
      [|discriminate].
    intros ->. reflexivity.
Qed.

Lemma push_pop_identity_witness :
  (Log.level 0%nat (Some (ALevel Level.Debug)) ;; Log.level 0%nat None)
    (imported (fun _ => true))
  = (Return (Some Level.Debug), imported (fun _ => true)).
Proof.
  eapply (push_pop_identity (imported (fun _ => true)) 0%nat).
  - reflexivity.
  - split; discriminate.
Defined.

(** ** [log] *)

(** [log] with a [Level]: what it returns and the events it adds. *)
Lemma log_level_eq (w : world) (self : ref) (o : log_obj) (now : datetime)
    (message : pyval) (S T Tc : Level.t) :
  heap w !! self = Some o ->
  last (_file_levels o) = Some T -> last (_levels o) = Some Tc ->
  let r := {| rec_time := now; rec_level := S; rec_message := message |} in
  Log.log self now message (Some (ALevel S)) w
  = (Return None,
     add_events w
       ((if Level.value S <=? Level.value T
         then map (fun f => EWrite f (_formatter o r ++ [10])) (_ofiles o)
         else [])
        ++ (if _stdout o && (Level.value S <=? Level.value Tc)
            then [EPrint (_stdout_formatter o r)] else []))).
Proof.
  intros Hself HT HTc r. unfold Log.log. unmonad. cbn.
  rewrite Hself, HT. cbn. fold r.
  destruct (Level.value S <=? Level.value T) eqn:E1;
    destruct (_stdout o) eqn:E2; cbn;
    rewrite ?write_all_events, ?HTc; cbn;
    try (destruct (Level.value S <=? Level.value Tc) eqn:E3; cbn);
    rewrite ?emit_add_events, ?add_events_app, ?app_nil_r;
    try reflexivity;
    now rewrite add_events_nil.
Qed.



(** What [log] leaves behind in every case, exceptions included: the world
    it started from with more events. *)
Lemma log_world (w : world) (self : ref) (now : datetime) (message : pyval)
    (lvl : option level_arg) :
  exists evs, snd (Log.log self now message lvl w) = add_events w evs.
Proof.
  unfold Log.log. unmonad.
  destruct (heap w !! self) as [o|]; cbn;
    [|exists []; now rewrite add_events_nil].
  destruct (last (_file_levels o)) as [T|]; cbn;
    [|exists []; now rewrite add_events_nil].
  destruct (default (ALevel Level.Log) lvl) as [s|S]; cbn;
    [exists []; now rewrite add_events_nil|].
  destruct (Level.value S <=? Level.value T); cbn;
    rewrite ?write_all_events; cbn;
    (destruct (_stdout o); cbn;
     [destruct (last (_levels o)) as [Tc|]; cbn;
      [destruct (Level.value S <=? Level.value Tc); cbn|]|]);
    rewrite ?emit_add_events, ?add_events_app;
    eexists; first [reflexivity | now rewrite add_events_nil].
Qed.

Lemma facade_log_world (w : world) (now : datetime) (message : pyval)
    (lvl : option level_arg) :
  exists evs, snd (log now message lvl w) = add_events w evs.
Proof.
  unfold log. destruct (_LOG w) as [g|];
    [|exists []; now rewrite add_events_nil].
  destruct (log_world w g now message lvl) as [evs E].
  exists evs. rewrite <- E. unmonad.
  now destruct (Log.log g now message lvl w) as [[a|e] w'].
Qed.

(** C10: a [log] call, a convenience call, or the same through the facade,
    whether it writes, filters the message out or raises, leaves every
    [Log] instance as it was (both level stacks, the sinks, the stdout flag
    and both formatters) and leaves the global logger slot as it was. *)
Theorem log_frame (w : world) (self : ref) (now : datetime)
    (message : pyval) (lvl : option level_arg) :
  let unchanged (w' : world) := heap w' = heap w /\ _LOG w' = _LOG w in
  unchanged (snd (Log.log self now message lvl w)) /\
  unchanged (snd (Log.error self now message w)) /\
  unchanged (snd (Log.warn self now message w)) /\
  unchanged (snd (Log.info self now message w)) /\
  unchanged (snd (Log.debug self now message w)) /\
  unchanged (snd (log now message lvl w)) /\
  unchanged (snd (error now message w)) /\
  unchanged (snd (warn now message w)) /\
  unchanged (snd (info now message w)) /\
  unchanged (snd (debug now message w)).
Proof.
  cbv zeta. unfold Log.error, Log.warn, Log.info, Log.debug,
    error, warn, info, debug.
  repeat split;
    first [ destruct (log_world w self now message lvl) as [evs ->]
          | destruct (log_world w self now message
                        (Some (ALevel Level.Error))) as [evs ->]
          | destruct (log_world w self now message
                        (Some (ALevel Level.Warning))) as [evs ->]
          | destruct (log_world w self now message
                        (Some (ALevel Level.Info))) as [evs ->]
          | destruct (log_world w self now message
                        (Some (ALevel Level.Debug))) as [evs ->]
          | destruct (facade_log_world w now message lvl) as [evs ->]
          | destruct (facade_log_world w now message
                        (Some (ALevel Level.Error))) as [evs ->]
          | destruct (facade_log_world w now message
                        (Some (ALevel Level.Warning))) as [evs ->]
          | destruct (facade_log_world w now message
                        (Some (ALevel Level.Info))) as [evs ->]
          | destruct (facade_log_world w now message
                        (Some (ALevel Level.Debug))) as [evs ->] ];
    reflexivity.
Qed.

Lemma bind_ret_snd {A B} (m : M A) (b : B) (w : world) :
  snd ((m ;; ret b) w) = snd (m w).
Proof. unmonad. now destruct (m w) as [[a|e] w']. Qed.

(** [log] returns nothing. *)
Lemma log_returns_None (w : world) (self : ref) (now : datetime)
    (message : pyval) (lvl : option level_arg) (v : option Level.t) :
  fst (Log.log self now message lvl w) = Return v -> v = None.
Proof.
  unfold Log.log. unmonad.
  repeat match goal with
         | |- context [match ?x with _ => _ end] => destruct x; cbn
         end; congruence.
Qed.

(** The facade [log] is [Log.log] of the global logger. *)
Lemma facade_log_delegates (w : world) (g : ref) (now : datetime)
    (message : pyval) (lvl : option level_arg) :
  _LOG w = Some g -> log now message lvl w = Log.log g now message lvl w.
Proof.
  intros Hg. unfold log. rewrite Hg.
  pose proof (log_returns_None w g now message lvl) as Hn.
  unmonad. destruct (Log.log g now message lvl w) as [[a|e] w']; cbn in *.
  - now rewrite (Hn a eq_refl).
  - reflexivity.
Qed.

(** ** The invariant of reachable worlds *)

Lemma open_all_frame (ops : list opath) (w : world) :
  heap (snd (open_all ops w)) = heap w /\ _LOG (snd (open_all ops w)) = _LOG w.
Proof.
  revert w. induction ops as [|op rest IH]; intros w; [easy|].
  cbn [open_all]. unmonad. unfold py_open.
  destruct op as [p|p|f]; cbn;
    try (destruct (openable w p); cbn; [|easy]);
    match goal with
    | |- context [open_all rest ?w1] =>
        destruct (IH w1) as [Hh Hg];
        destruct (open_all rest w1) as [[[ops' fs]|e] w2]; cbn in *; easy
    end.
Qed.

(** What the constructor does to the store: nothing when it raises, one
    more instance with singleton stacks when it returns. *)
Lemma init_store (ops : list opath) (fl : option Level.t)
    (fmt : option Formatter) (so : option bool) (sl : option Level.t)
    (sfmt : option Formatter) (w : world) :
  let res := Log.__init__ ops fl fmt so sl sfmt w in
  _LOG (snd res) = _LOG w /\
  match fst res with
  | Raise _ => heap (snd res) = heap w
  | Return r =>
      r = length (heap w) /\
      exists o, heap (snd res) = heap w ++ [o] /\
        _file_levels o = [default Level.Log fl] /\
        _levels o = [default (default Level.Log fl) sl] /\
        _stdout o = default true so /\
        _formatter o = default json_formatter fmt /\
        _stdout_formatter o = default stdout_formatter sfmt
  end.
Proof.
  cbv zeta. unfold Log.__init__. unmonad. unfold alloc.
  destruct (open_all_frame ops w) as [Hh Hg].
  destruct (open_all ops w) as [[[paths files]|e] w1]; cbn in *;
    [|easy].
  rewrite Hh. split; [easy|]. split; [easy|].
  eexists. split; [reflexivity|]. cbn. now destruct sl.
Qed.

(** A push or pop either raises and changes nothing, or replaces the stack
    of the instance by one that is not empty. *)
Lemma file_level_cases (self : ref) (a : option level_arg) (w : world) :
  (exists e, Log.file_level self a w = (Raise e, w)) \/
  (exists o stack r,
     heap w !! self = Some o /\ stack <> [] /\
     Log.file_level self a w
     = (Return r, set_heap w (<[self := set_file_levels o stack]> (heap w)))).
Proof.
  destruct (heap w !! self) as [o|] eqn:Hself.
  - destruct a as [a|].
    + destruct (_ensure_level a) as [l|e] eqn:Ea.
      * right. exists o, (_file_levels o ++ [l]), None.
        split; [reflexivity|]. split; [now destruct (_file_levels o)|].
        now apply file_level_push.
      * left. exists e. unfold Log.file_level. unmonad. now rewrite Ea.
    + destruct (length (_file_levels o) <? 2)%nat eqn:Hlen.
      * left. exists (ValueError None). unfold Log.file_level. unmonad.
        now rewrite Hself, Hlen.
      * apply Nat.ltb_ge in Hlen.
        destruct (last_nonempty (_file_levels o)) as [top Htop].
        { intros E. rewrite E in Hlen. cbn in Hlen. lia. }
        right. exists o, (removelast (_file_levels o)), (Some top).
        split; [reflexivity|]. split.
        -- destruct (_file_levels o) as [|x [|y st]]; cbn in *; [lia|lia|easy].
        -- now apply file_level_pop.
  - left. exists (match a with
                  | Some a => match _ensure_level a with
                              | Return _ => ReferenceError
                              | Raise e => e
                              end
                  | None => ReferenceError
                  end).
    unfold Log.file_level. unmonad. destruct a as [a|].
    + destruct (_ensure_level a); [now rewrite Hself|reflexivity].
    + now rewrite Hself.
Qed.

Lemma level_cases (self : ref) (a : option level_arg) (w : world) :
  (exists e, Log.level self a w = (Raise e, w)) \/
  (exists o stack r,
     heap w !! self = Some o /\ stack <> [] /\
     Log.level self a w
     = (Return r, set_heap w (<[self := set_levels o stack]> (heap w)))).
Proof.
  destruct (heap w !! self) as [o|] eqn:Hself.
  - destruct a as [a|].
    + destruct (_ensure_level a) as [l|e] eqn:Ea.
      * right. exists o, (_levels o ++ [l]), None.
        split; [reflexivity|]. split; [now destruct (_levels o)|].
        now apply level_push.
      * left. exists e. unfold Log.level. unmonad. now rewrite Ea.
    + destruct (length (_levels o) <? 2)%nat eqn:Hlen.
      * left. exists (ValueError None). unfold Log.level. unmonad.
        now rewrite Hself, Hlen.
      * apply Nat.ltb_ge in Hlen.
        destruct (last_nonempty (_levels o)) as [top Htop].
        { intros E. rewrite E in Hlen. cbn in Hlen. lia. }
        right. exists o, (removelast (_levels o)), (Some top).
        split; [reflexivity|]. split.
        -- destruct (_levels o) as [|x [|y st]]; cbn in *; [lia|lia|easy].
        -- now apply level_pop.
  - left. exists (match a with
                  | Some a => match _ensure_level a with
                              | Return _ => ReferenceError
                              | Raise e => e
                              end
                  | None => ReferenceError
                  end).
    unfold Log.level. unmonad. destruct a as [a|].
    + destruct (_ensure_level a); [now rewrite Hself|reflexivity].
    + now rewrite Hself.
Qed.

Lemma file_level_store (self : ref) (a : option level_arg) (w : world) :
  let w' := snd (Log.file_level self a w) in
  _LOG w' = _LOG w /\ length (heap w') = length (heap w) /\
  (Forall wf_obj (heap w) -> Forall wf_obj (heap w')).
Proof.
  cbv zeta.
  destruct (file_level_cases self a w)
    as [[e ->]|(o & stack & r & Hself & Hne & ->)]; cbn; [easy|].
  rewrite length_insert. repeat split.
  intros Hwf. apply Forall_insert; [assumption|].
  pose proof (proj1 (Forall_lookup _ _) Hwf self o Hself) as [_ Hs].
  split; assumption.
Qed.

Lemma level_store (self : ref) (a : option level_arg) (w : world) :
  let w' := snd (Log.level self a w) in
  _LOG w' = _LOG w /\ length (heap w') = length (heap w) /\
  (Forall wf_obj (heap w) -> Forall wf_obj (heap w')).
Proof.
  cbv zeta.
  destruct (level_cases self a w)
    as [[e ->]|(o & stack & r & Hself & Hne & ->)]; cbn; [easy|].
  rewrite length_insert. repeat split.
  intros Hwf. apply Forall_insert; [assumption|].
  pose proof (proj1 (Forall_lookup _ _) Hwf self o Hself) as [Hf _].
  split; assumption.
Qed.

(** Every call but [set_global] leaves the global logger slot alone, never
    shrinks the store and keeps the instances well formed. *)
Lemma exec_store (c : call) (w : world) :
  (is_set_global c = false -> _LOG (exec c w) = _LOG w) /\
  (length (heap w) <= length (heap (exec c w)))%nat /\
  (Forall wf_obj (heap w) -> Forall wf_obj (heap (exec c w))).
Proof.
  destruct c as [ops fl fmt so sl sfmt|self|self a|self a|self now m l|self
                |a|a|now m l]; cbn [exec is_set_global].
  - pose proof (init_store ops fl fmt so sl sfmt w) as [Hg Hres].
    cbv zeta in Hres.
    destruct (fst (Log.__init__ ops fl fmt so sl sfmt w)) as [r|e].
    + destruct Hres as [_ (o & -> & Hf & Hs & _)].
      rewrite length_app. repeat split; [easy|lia|].
      intros Hwf. apply Forall_app. split; [assumption|].
      constructor; [|constructor]. split; congruence.
    + rewrite Hres. repeat split; [easy|lia|easy].
  - cbn. repeat split; [discriminate|lia|easy].
  - destruct (file_level_store self a w) as (Hg & Hl & Hwf).
    repeat split; [easy|lia|easy].
  - destruct (level_store self a w) as (Hg & Hl & Hwf).
    repeat split; [easy|lia|easy].
  - destruct (log_world w self now m l) as [evs ->]. cbn.
    repeat split; [lia|easy].
  - cbn. repeat split; [lia|easy].
  - unfold file_level. destruct (_LOG w) as [g|] eqn:Eg;
      [|cbn; repeat split; [easy|lia|easy]].
    rewrite bind_ret_snd.
    destruct (file_level_store g a w) as (Hg & Hl & Hwf).
    repeat split; [congruence|lia|easy].
  - unfold level. destruct (_LOG w) as [g|] eqn:Eg;
      [|cbn; repeat split; [easy|lia|easy]].
    rewrite bind_ret_snd.
    destruct (level_store g a w) as (Hg & Hl & Hwf).
    repeat split; [congruence|lia|easy].
  - destruct (facade_log_world w now m l) as [evs ->]. cbn.
    repeat split; [lia|easy].
Qed.

Lemma inv_imported (can_open : pystr -> bool) : inv (imported can_open).
Proof.
  split.
  - cbn. constructor; [|constructor]. split; discriminate.
  - exists 0%nat. cbn. eauto.
Qed.

Lemma inv_exec (c : call) (w : world) :
  inv w -> call_ok w c -> inv (exec c w).
Proof.
  intros [Hwf (g & Hg & Hin)] Hok.
  destruct (exec_store c w) as (HLOG & Hlen & Hwf').
  split; [auto|].
  destruct (is_set_global c) eqn:Ec.
  - destruct c; try discriminate. cbn in *. exists self. split; [easy|].
    exact Hok.
  - exists g. split; [rewrite HLOG; auto|].
    apply lookup_lt_is_Some. apply lookup_lt_is_Some in Hin. lia.
Qed.

(** In every reachable world the instances are well formed and the global
    logger slot holds one of them. *)
Lemma reachable_inv (w : world) : reachable w -> inv w.
Proof.
  induction 1 as [can_open|w c Hr IH Hok];
    [apply inv_imported|now apply inv_exec].
Qed.

(** ** Severity names are not severities for [log] *)

Lemma log_str_raises (w : world) (self : ref) (now : datetime)
    (message : pyval) (s : pystr) :
  Log.log self now message (Some (AStr s)) w
  = (Raise (match heap w !! self with
            | None => ReferenceError
            | Some o => match last (_file_levels o) with
                        | None => IndexError
                        | Some _ => AttributeError
                        end
            end), w).
Proof.
  unfold Log.log. unmonad. cbn.
  destruct (heap w !! self) as [o|]; [|reflexivity].
  now destruct (last (_file_levels o)).
Qed.

(** C9: [Log.log] with a [str] as severity raises and leaves the world as
    it was (nothing is written), whatever the string, the five accepted
    names included; on a well-formed instance the exception is
    [AttributeError]; the facade [log] does the same in every reachable
    world; and the push operation on the same instance does accept each of
    the five names. *)
Theorem log_never_coerces_str (w : world) (now : datetime)
    (message : pyval) (s : pystr) :
  (forall self, exists e,
     Log.log self now message (Some (AStr s)) w = (Raise e, w)) /\
  (forall self o, heap w !! self = Some o -> wf_obj o ->
     Log.log self now message (Some (AStr s)) w = (Raise AttributeError, w) /\
     forall l,
       Log.log self now message (Some (AStr (level_name_lower l))) w
       = (Raise AttributeError, w) /\
       fst (Log.file_level self (Some (AStr (level_name_lower l))) w)
       = Return None /\
       fst (Log.level self (Some (AStr (level_name_lower l))) w)
       = Return None) /\
  (reachable w ->
   log now message (Some (AStr s)) w = (Raise AttributeError, w)).
Proof.
  assert (Hwf : forall self o s', heap w !! self = Some o -> wf_obj o ->
            Log.log self now message (Some (AStr s')) w
            = (Raise AttributeError, w)).
  { intros self o s' Hself [Hf _]. rewrite log_str_raises, Hself.
    destruct (last_nonempty _ Hf) as [T ->]. reflexivity. }
  split; [|split].
  - intros self. eexists. apply log_str_raises.
  - intros self o Hself Ho. split; [eauto|]. intros l. split; [eauto|].
    pose proof (ensure_level_name l) as El.
    split.
    + now rewrite (file_level_push w self o _ l Hself El).
    + now rewrite (level_push w self o _ l Hself El).
  - intros Hr. destruct (reachable_inv w Hr) as [Hall (g & Hg & [o Ho])].
    rewrite (facade_log_delegates w g) by assumption.
    apply (Hwf g o); [assumption|].
    exact (proj1 (Forall_lookup _ _) Hall g o Ho).
Qed.

Lemma log_never_coerces_str_witness :
  log sample_time (PStr hello) (Some (AStr (lit "error")))
    (imported (fun _ => true))
  = (Raise AttributeError, imported (fun _ => true)).
Proof.
  apply (log_never_coerces_str (imported (fun _ => true)) sample_time
           (PStr hello) (lit "error")).
  apply reach_import.
Defined.

(** ** The facade over the global logger *)

(** C2: the facade's pops do remove the top of the global logger's stack,
    as the method does, but return [None] where the method returns the
    removed level: in [pushed_world] the method returns [Debug] (resp.
    [Info]) and the facade returns [None]; in no world does a facade
    [file_level] or [level] call return a level. *)
Theorem facade_pop_drops_level :
  Log.file_level 0%nat None pushed_world
  = (Return (Some Level.Debug), snd (file_level None pushed_world)) /\
  fst (file_level None pushed_world) = Return None /\
  Log.level 0%nat None pushed_world
  = (Return (Some Level.Info), snd (level None pushed_world)) /\
  fst (level None pushed_world) = Return None /\
  (forall w a v, fst (file_level a w) <> Return (Some v)) /\
  (forall w a v, fst (level a w) <> Return (Some v)).
Proof.
  repeat split; try reflexivity.
  - intros w a v. unfold file_level. destruct (_LOG w) as [g|];
      [|discriminate].
    unmonad. now destruct (Log.file_level g a w) as [[r|e] w'].
  - intros w a v. unfold level. destruct (_LOG w) as [g|];
      [|discriminate].
    unmonad. now destruct (Log.level g a w) as [[r|e] w'].
Qed.

Lemma exec_all_LOG (cs : list call) (w : world) :
  forallb (fun c => negb (is_set_global c)) cs = true ->
  _LOG (exec_all cs w) = _LOG w.
Proof.
  revert w. induction cs as [|c cs IH]; intros w Hcs; [reflexivity|].
  cbn in Hcs. apply andb_prop in Hcs as [Hc Hcs]. cbn.
  rewrite (IH _ Hcs). apply exec_store. now apply negb_true_iff.
Qed.

(** C6: [A.set_global()] and then [B.set_global()]: the second call returns
    [A]; after it, and after any further calls that are not [set_global],
    the global logger is [B] and a facade [log] call is [B.log]. *)
Theorem set_global_twice (w : world) (A B : ref) (cs : list call)
    (now : datetime) (message : pyval) (lvl : option level_arg) :
  forallb (fun c => negb (is_set_global c)) cs = true ->
  let w1 := snd (Log.set_global A w) in
  let second := Log.set_global B w1 in
  let w3 := exec_all cs (snd second) in
  fst second = Return (Some A) /\
  _LOG (snd second) = Some B /\
  _LOG w3 = Some B /\
  log now message lvl w3 = Log.log B now message lvl w3.
Proof.
  intros Hcs w1 second w3.
  assert (HB : _LOG w3 = Some B).
  { unfold w3. now rewrite exec_all_LOG. }
  repeat split; try assumption. now apply facade_log_delegates.
Qed.

Lemma set_global_twice_witness :
  fst (Log.set_global 1%nat (snd (Log.set_global 0%nat two_loggers)))
  = Return (Some 0%nat) /\
  let w3 :=
    exec_all [CLevel (Some (AStr (lit "debug")));
              CLog sample_time (PStr hello) None]
      (snd (Log.set_global 1%nat (snd (Log.set_global 0%nat two_loggers))))
  in
  log sample_time (PInt 7) None w3 = Log.log 1%nat sample_time (PInt 7) None w3.
Proof.
  destruct (set_global_twice two_loggers 0%nat 1%nat
              [CLevel (Some (AStr (lit "debug")));
               CLog sample_time (PStr hello) None]
              sample_time (PInt 7) None eq_refl) as (Hret & _ & _ & Hlog).
  split; [exact Hret|exact Hlog].
Defined.

(** ** Defaults of the constructor *)

Lemma init_no_paths (fl : option Level.t) (fmt : option Formatter)
    (so : option bool) (sl : option Level.t) (sfmt : option Formatter)
    (w : world) :
  Log.__init__ [] fl fmt so sl sfmt w
  = (Return (length (heap w)),
     set_heap w
       (heap w ++
        [{| _file_levels := [default Level.Log fl];
            _levels := [default (default Level.Log fl) sl];
            _stdout := default true so;
            _opaths := []; _ofiles := [];
            _formatter := default json_formatter fmt;
            _stdout_formatter := default stdout_formatter sfmt |}])).
Proof. now destruct sl. Qed.

(** C7: a constructor call without [stdout_level] that returns gives an
    instance whose stdout stack is its file stack's content,
    [[file_level]], with [file_level] defaulting to [Log]; the call
    [Log()] returns an instance with both stacks [[Log]], stdout enabled and
    no file sink, on which [info(message)] returns without adding any event
    ([value Info = 4 > 3 = value Log]); and so does the facade [info] on the
    default global logger. *)
Theorem default_levels (w : world) (opaths : list opath)
    (fl : option Level.t) (fmt : option Formatter) (so : option bool)
    (sfmt : option Formatter) (now : datetime) (message : pyval) :
  (forall r w',
     Log.__init__ opaths fl fmt so None sfmt w = (Return r, w') ->
     exists o, heap w' !! r = Some o /\
       _file_levels o = [default Level.Log fl] /\
       _levels o = [default Level.Log fl]) /\
  (exists r w' o,
     Log.__init__ [] None None None None None w = (Return r, w') /\
     heap w' !! r = Some o /\
     _file_levels o = [Level.Log] /\ _levels o = [Level.Log] /\
     _stdout o = true /\ _ofiles o = [] /\
     Level.value Level.Info > Level.value Level.Log /\
     Log.info r now message w' = (Return None, w')) /\
  (forall can_open,
     info now message (imported can_open)
     = (Return None, imported can_open)).
Proof.
  split; [|split].
  - intros r w' E.
    pose proof (init_store opaths fl fmt so None sfmt w) as [_ Hres].
    cbv zeta in Hres. rewrite E in Hres. cbn in Hres.
    destruct Hres as [-> (o & -> & Hf & Hs & _)].
    exists o. split; [|now split].
    rewrite lookup_app_r by lia. now rewrite Nat.sub_diag.
  - eexists _, _, _. split; [apply init_no_paths|]. cbn [default].
    assert (Hlook : forall o, (heap w ++ [o]) !! length (heap w) = Some o).
    { intros o. rewrite lookup_app_r by lia. now rewrite Nat.sub_diag. }
    split; [cbn; apply Hlook|].
    repeat split.
    unfold Log.info. erewrite log_level_eq;
      [|cbn; apply Hlook|reflexivity|reflexivity].
    cbn. now rewrite add_events_nil.
  - intros can_open. unfold info.
    rewrite (facade_log_delegates _ 0%nat) by reflexivity.
    erewrite log_level_eq; [|reflexivity..].
    cbn. now rewrite add_events_nil.
Qed.

Lemma default_levels_witness :
  exists o, heap two_loggers !! 1%nat = Some o /\
    _file_levels o = [Level.Debug] /\ _levels o = [Level.Debug].
Proof.
  apply (proj1 (default_levels (imported (fun _ => true)) [OFile 3%nat]
                  (Some Level.Debug) None (Some false) None sample_time
                  PNone) 1%nat two_loggers).
  reflexivity.
Defined.

(** ** The machine format: ASCII and round trip *)

Lemma bind_Some {A B} (x : A) (f : A -> option B) : Some x ≫= f = f x.
Proof. reflexivity. Qed.

Lemma expect_app (p rest : pystr) : expect p (p ++ rest) = Some rest.
Proof.
  induction p as [|c p IH]; cbn; [now destruct rest|].
  now rewrite N.eqb_refl.
Qed.

Lemma expect_self (p : pystr) : expect p p = Some [].
Proof. rewrite <- (app_nil_r p) at 2. apply expect_app. Qed.

Lemma read_digits_snoc (k : nat) : forall acc s,
  read_digits (S k) acc s
  = match read_digits k acc s with
    | Some (v, c :: s') =>
        if is_digit c then Some (10 * v + (c - 48), s') else None
    | _ => None
    end.
Proof.
  induction k as [|k IH]; intros acc s.
  - cbn. destruct s as [|c s']; [reflexivity|]. now destruct (is_digit c).
  - destruct s as [|c s']; [reflexivity|].
    change (read_digits (S (S k)) acc (c :: s'))
      with (if is_digit c
            then read_digits (S k) (10 * acc + (c - 48)) s' else None).
    change (read_digits (S k) acc (c :: s'))
      with (if is_digit c
            then read_digits k (10 * acc + (c - 48)) s' else None).
    destruct (is_digit c); [|reflexivity]. apply IH.
Qed.

Ltac lia_div := zify; Z.to_euclidean_division_equations; lia.

Lemma is_digit_mod10 (n : N) : is_digit (48 + n mod 10) = true.
Proof.
  unfold is_digit. apply andb_true_iff. split; apply N.leb_le; lia_div.
Qed.

Lemma read_digits_zpad (k : nat) : forall n acc rest,
  read_digits k acc (zpad k n ++ rest)
  = Some (acc * 10 ^ N.of_nat k + n mod 10 ^ N.of_nat k, rest).
Proof.
  induction k as [|k IH]; intros n acc rest.
  - cbn. rewrite N.mod_1_r. f_equal. f_equal. lia.
  - rewrite read_digits_snoc. cbn [zpad]. rewrite <- app_assoc, IH.
    cbn [app]. rewrite is_digit_mod10. f_equal. f_equal.
    rewrite Nat2N.inj_succ, N.pow_succ_r'.
    rewrite (N.Div0.mod_mul_r n 10).
    generalize (n mod 10) ((n / 10) mod 10 ^ N.of_nat k) (10 ^ N.of_nat k).
    intros; lia.
Qed.

Lemma read_digits_zpad_small (k : nat) (n : N) (rest : pystr) :
  n < 10 ^ N.of_nat k ->
  read_digits k 0 (zpad k n ++ rest) = Some (n, rest).
Proof.
  intros H. rewrite read_digits_zpad, N.mod_small by assumption.
  reflexivity.
Qed.

Lemma datetime_valid_bounds (t : datetime) :
  datetime_valid t = true ->
  year t < 10 ^ 4 /\ month t < 10 ^ 2 /\ day t < 10 ^ 2 /\
  hour t < 10 ^ 2 /\ minute t < 10 ^ 2 /\ second t < 10 ^ 2 /\
  microsecond t < 10 ^ 6.
Proof.
  unfold datetime_valid. rewrite !andb_true_iff.
  rewrite !N.leb_le, !N.ltb_lt.
  intros (((((((((Hy1 & Hy) & Hm1) & Hm) & Hd1) & Hd) & Hh) & Hmi) & Hs) & Hus).
  assert (days_in_month (year t) (month t) <= 31).
  { unfold days_in_month.
    repeat match goal with |- context [if ?b then _ else _] => destruct b end;
      lia. }
  change (10 ^ 4) with 10000. change (10 ^ 2) with 100.
  change (10 ^ 6) with 1000000. lia.
Qed.

Lemma fromisoformat_isoformat (t : datetime) :
  datetime_valid t = true -> fromisoformat (isoformat t) = Some t.
Proof.
  intros Hv. destruct (datetime_valid_bounds t Hv)
    as (Hy & Hmo & Hd & Hh & Hmi & Hs & Hus).
  destruct t as [y mo d h mi s us]. cbn [year month day hour minute second
    microsecond] in *.
  unfold fromisoformat, isoformat, isoformat_sep.
  cbn [year month day hour minute second microsecond].
  rewrite (read_digits_zpad_small 4) by exact Hy. rewrite bind_Some.
  rewrite expect_app, bind_Some.
  rewrite (read_digits_zpad_small 2) by exact Hmo. rewrite bind_Some.
  rewrite expect_app, bind_Some.
  rewrite (read_digits_zpad_small 2) by exact Hd. rewrite bind_Some.
  rewrite (expect_app [84]), bind_Some.
  rewrite (read_digits_zpad_small 2) by exact Hh. rewrite bind_Some.
  rewrite expect_app, bind_Some.
  rewrite (read_digits_zpad_small 2) by exact Hmi. rewrite bind_Some.
  rewrite expect_app, bind_Some.
  rewrite (read_digits_zpad_small 2) by exact Hs. rewrite bind_Some.
  destruct (us =? 0) eqn:Eus.
  - apply N.eqb_eq in Eus. subst us. cbn [app lit].
    change (N_of_ascii "+") with 43. cbv iota. rewrite bind_Some.
    rewrite expect_self, bind_Some. now rewrite Hv.
  - change ((lit "." ++ zpad 6 us) ++ lit "+00:00")
      with (46 :: zpad 6 us ++ lit "+00:00").
    cbv iota.
    rewrite (read_digits_zpad_small 6) by exact Hus. rewrite bind_Some.
    rewrite expect_self, bind_Some. now rewrite Hv.
Qed.

Lemma plain_inv (c : N) :
  plain c = true -> 32 <= c <= 126 /\ c <> 34 /\ c <> 92.
Proof.
  unfold plain. rewrite !andb_true_iff, !negb_true_iff, !N.leb_le, !N.eqb_neq.
  tauto.
Qed.

Lemma escape_char_plain (c : N) : plain c = true -> escape_char c = [c].
Proof.
  intros H. apply plain_inv in H as ([H1 H2] & H3 & H4). unfold escape_char.
  repeat match goal with
         | |- context [?a =? ?b] =>
             replace (a =? b) with false by (symmetry; apply N.eqb_neq; lia)
         end.
  replace (32 <=? c) with true by (symmetry; apply N.leb_le; lia).
  replace (c <=? 126) with true by (symmetry; apply N.leb_le; lia).
  reflexivity.
Qed.

Lemma flat_map_escape_plain (s : pystr) :
  forallb plain s = true -> flat_map escape_char s = s.
Proof.
  induction s as [|c s IH]; [reflexivity|]. cbn [forallb flat_map].
  intros H. apply andb_true_iff in H as [Hc Hs].
  now rewrite escape_char_plain, IH.
Qed.

Lemma read_string_body_plain (s rest : pystr) :
  forallb plain s = true ->
  read_string_body (s ++ 34 :: rest) = Some (map Raw s, rest).
Proof.
  induction s as [|c s IH]; [reflexivity|]. cbn [forallb].
  intros H. apply andb_true_iff in H as [Hc Hs].
  apply plain_inv in Hc as ([H1 H2] & H3 & H4).
  cbn [app read_string_body map].
  replace (c =? 34) with false by (symmetry; apply N.eqb_neq; lia).
  replace (c =? 92) with false by (symmetry; apply N.eqb_neq; lia).
  replace (c <? 32) with false by (symmetry; apply N.ltb_ge; lia).
  now rewrite (IH Hs).
Qed.

Lemma join_surrogates_raw (s : pystr) : join_surrogates (map Raw s) = s.
Proof. induction s as [|c s IH]; [reflexivity|]. cbn. now rewrite IH. Qed.

Lemma zpad_plain (k : nat) : forall n, forallb plain (zpad k n) = true.
Proof.
  induction k as [|k IH]; intros n; [reflexivity|]. cbn [zpad].
  rewrite forallb_app, IH. cbn. rewrite andb_true_r. unfold plain.
  rewrite !andb_true_iff, !negb_true_iff, !N.leb_le, !N.eqb_neq.
  repeat split; lia_div.
Qed.

Lemma isoformat_plain (t : datetime) : forallb plain (isoformat t) = true.
Proof.
  unfold isoformat, isoformat_sep.
  rewrite !forallb_app, !zpad_plain.
  destruct (microsecond t =? 0); [reflexivity|].
  now rewrite forallb_app, zpad_plain.
Qed.

Lemma plain_ascii (s : pystr) :
  forallb plain s = true -> forallb is_ascii s = true.
Proof.
  induction s as [|c s IH]; [reflexivity|]. cbn [forallb].
  intros H. apply andb_true_iff in H as [Hc Hs]. rewrite (IH Hs).
  apply plain_inv in Hc as ([H1 H2] & _). unfold is_ascii.
  replace (c <? 128) with true by (symmetry; apply N.ltb_lt; lia).
  reflexivity.
Qed.

Lemma hex_digit_ascii (d : N) : d < 16 -> is_ascii (hex_digit d) = true.
Proof.
  intros H. unfold is_ascii, hex_digit. apply N.ltb_lt.
  destruct (d <? 10); lia.
Qed.

Lemma u_escape_ascii (c : N) : forallb is_ascii (u_escape c) = true.
Proof.
  unfold u_escape. cbn [forallb].
  rewrite !hex_digit_ascii by (apply N.mod_upper_bound; lia).
  reflexivity.
Qed.

Lemma escape_char_ascii (c : N) : forallb is_ascii (escape_char c) = true.
Proof.
  unfold escape_char.
  repeat match goal with
         | |- context [if ?a =? ?b then _ else _] => destruct (a =? b)
         end; try reflexivity.
  destruct ((32 <=? c) && (c <=? 126)) eqn:E.
  - apply andb_true_iff in E as [_ E]. apply N.leb_le in E. cbn.
    unfold is_ascii. replace (c <? 128) with true
      by (symmetry; apply N.ltb_lt; lia).
    reflexivity.
  - destruct (c <? 65536); [apply u_escape_ascii|].
    cbv zeta. now rewrite forallb_app, !u_escape_ascii.
Qed.

Lemma encode_basestring_ascii_ascii (s : pystr) :
  forallb is_ascii (encode_basestring_ascii s) = true.
Proof.
  unfold encode_basestring_ascii. rewrite !forallb_app. cbn.
  rewrite andb_true_r.
  induction s as [|c s IH]; [reflexivity|]. cbn [flat_map].
  now rewrite forallb_app, escape_char_ascii, IH.
Qed.

Lemma string_of_uint_ascii (d : Decimal.uint) :
  forallb is_ascii (lit (NilEmpty.string_of_uint d)) = true.
Proof. induction d; cbn; auto. Qed.

Lemma str_int_ascii (z : Z) : forallb is_ascii (str_int z) = true.
Proof.
  unfold str_int, NilZero.string_of_int.
  destruct (Z.to_int z) as [d|d]; unfold NilZero.string_of_uint.
  - destruct d; try apply string_of_uint_ascii; reflexivity.
  - destruct d; try apply (string_of_uint_ascii (Decimal.D0 _));
      cbn [lit forallb]; try reflexivity.
Qed.

Lemma json_scalar_ascii (v : pyval) : forallb is_ascii (json_scalar v) = true.
Proof.
  destruct v as [|[|]|z|s]; try reflexivity;
    [apply str_int_ascii|apply encode_basestring_ascii_ascii].
Qed.

(** The output of [json_formatter] is ASCII, whatever the record. *)
Lemma json_formatter_ascii (r : record) :
  forallb is_ascii (json_formatter r) = true.
Proof.
  unfold json_formatter, json_dumps, json_items_tail.
  rewrite !forallb_app, !json_scalar_ascii, !encode_basestring_ascii_ascii.
  reflexivity.
Qed.

(** The line for a record, around the text of its timestamp. *)
Lemma json_formatter_shape (t : datetime) (l : Level.t) (m : pyval) :
  json_formatter {| rec_time := t; rec_level := l; rec_message := m |}
  = (lit "{" ++ quoted "time" ++ lit ": " ++ [34])
    ++ isoformat t
    ++ 34 :: lit ", " ++ quoted "level" ++ lit ": "
       ++ str_int (Z.of_N (Level.value l)) ++ lit ", " ++ quoted "message"
       ++ lit ": " ++ json_scalar m ++ lit "}".
Proof.
  unfold json_formatter, json_dumps, json_items_tail.
  cbn [rec_time rec_level rec_message json_scalar].
  unfold encode_basestring_ascii at 2.
  rewrite (flat_map_escape_plain _ (isoformat_plain t)).
  generalize (isoformat t) as iso. intros iso.
  rewrite <- !app_assoc. reflexivity.
Qed.

(** *** Text with escapes *)

Lemma lor_high_low (a b k : N) :
  b < 2 ^ k -> N.lor (a * 2 ^ k) b = a * 2 ^ k + b.
Proof.
  intros Hb.
  assert (Hland : N.land (a * 2 ^ k) b = 0).
  { apply N.bits_inj. intros n. rewrite N.land_spec, N.bits_0.
    destruct (N.lt_ge_cases n k) as [Hn|Hn].
    - now rewrite N.mul_pow2_bits_low.
    - destruct (N.eq_dec b 0) as [->|Hb0];
        [now rewrite N.bits_0, andb_false_r|].
      rewrite (N.bits_above_log2 b n), andb_false_r; [reflexivity|].
      apply N.log2_lt_pow2; [lia|].
      eapply N.lt_le_trans; [exact Hb|]. now apply N.pow_le_mono_r. }
  now rewrite <- N.lxor_lor, <- N.add_nocarry_lxor.
Qed.

Lemma surrogates_of (c : N) :
  65536 <= c < 1114112 ->
  let n := c - 65536 in
  N.lor 55296 (N.land (N.shiftr n 10) 1023) = 55296 + n / 1024 /\
  N.lor 56320 (N.land n 1023) = 56320 + n mod 1024 /\
  n / 1024 < 1024.
Proof.
  intros Hc n.
  assert (Hn : n < 1048576) by (unfold n; lia).
  assert (Hq : n / 1024 < 1024) by (apply N.Div0.div_lt_upper_bound; lia).
  change 1023 with (N.ones 10). rewrite !N.land_ones, N.shiftr_div_pow2.
  change (2 ^ 10) with 1024. rewrite (N.mod_small (n / 1024)) by exact Hq.
  change 55296 with (54 * 2 ^ 10). change 56320 with (55 * 2 ^ 10).
  rewrite !lor_high_low.
  - change (2 ^ 10) with 1024. repeat split; assumption.
  - change (2 ^ 10) with 1024. apply N.mod_upper_bound. lia.
  - exact Hq.
Qed.

Lemma hex_value_hex_digit (d : N) : d < 16 -> hex_value (hex_digit d) = Some d.
Proof.
  intros H. unfold hex_digit, hex_value, is_digit.
  destruct (d <? 10) eqn:E.
  - apply N.ltb_lt in E.
    replace (48 <=? 48 + d) with true by (symmetry; apply N.leb_le; lia).
    replace (48 + d <=? 57) with true by (symmetry; apply N.leb_le; lia).
    cbn. f_equal. lia.
  - apply N.ltb_ge in E.
    replace (87 + d <=? 57) with false by (symmetry; apply N.leb_gt; lia).
    rewrite andb_false_r.
    replace (97 <=? 87 + d) with true by (symmetry; apply N.leb_le; lia).
    replace (87 + d <=? 102) with true by (symmetry; apply N.leb_le; lia).
    cbn. f_equal. lia.
Qed.

Lemma read_u_escape (c : N) (rest : pystr) :
  c < 65536 ->
  read_string_body (u_escape c ++ rest)
  = '(toks, r) ← read_string_body rest; Some (Esc c :: toks, r).
Proof.
  intros Hc. unfold u_escape. cbn [app read_string_body].
  change (92 =? 34) with false. change (92 =? 92) with true.
  change (117 =? 117) with true. cbv iota.
  rewrite !hex_value_hex_digit by (apply N.mod_upper_bound; lia).
  rewrite !bind_Some.
  replace (4096 * (c / 4096 mod 16) + 256 * (c / 256 mod 16)
           + 16 * (c / 16 mod 16) + c mod 16) with c by lia_div.
  reflexivity.
Qed.

Lemma read_escape_char (c : N) (rest : pystr) :
  c < 1114112 ->
  read_string_body (escape_char c ++ rest)
  = '(toks, r) ← read_string_body rest; Some (units_of_char c ++ toks, r).
Proof.
  intros Hc. unfold escape_char, units_of_char.
  destruct (c =? 92) eqn:E92; [apply N.eqb_eq in E92; now subst c|].
  destruct (c =? 34) eqn:E34; [apply N.eqb_eq in E34; now subst c|].
  destruct (c =? 8) eqn:E8; [apply N.eqb_eq in E8; now subst c|].
  destruct (c =? 12) eqn:E12; [apply N.eqb_eq in E12; now subst c|].
  destruct (c =? 10) eqn:E10; [apply N.eqb_eq in E10; now subst c|].
  destruct (c =? 13) eqn:E13; [apply N.eqb_eq in E13; now subst c|].
  destruct (c =? 9) eqn:E9; [apply N.eqb_eq in E9; now subst c|].
  cbn [orb].
  destruct ((32 <=? c) && (c <=? 126)) eqn:Ep.
  - apply andb_true_iff in Ep as [Hlo Hhi]. apply N.leb_le in Hlo.
    cbn [app read_string_body]. rewrite E34, E92.
    replace (c <? 32) with false by (symmetry; apply N.ltb_ge; lia).
    reflexivity.
  - destruct (c <? 65536) eqn:Eb.
    + apply N.ltb_lt in Eb. now rewrite read_u_escape.
    + apply N.ltb_ge in Eb. cbv zeta.
      destruct (surrogates_of c (conj Eb Hc)) as (Hh & Hl & Hq).
      cbv zeta in Hh, Hl, Hq.
      pose proof (N.mod_upper_bound (c - 65536) 1024 ltac:(lia)) as Hr.
      rewrite <- app_assoc.
      rewrite read_u_escape by (rewrite Hh; lia_div).
      rewrite read_u_escape by (rewrite Hl; lia_div).
      now destruct (read_string_body rest) as [[toks r]|].
Qed.

Lemma read_string_body_encoded (s rest : pystr) :
  forallb scalar_value s = true ->
  read_string_body (flat_map escape_char s ++ 34 :: rest)
  = Some (flat_map units_of_char s, rest).
Proof.
  induction s as [|c s IH]; [reflexivity|]. cbn [forallb flat_map].
  intros H. apply andb_true_iff in H as [Hc Hs].
  apply andb_true_iff in Hc as [Hc _]. apply N.ltb_lt in Hc.
  rewrite <- app_assoc, read_escape_char by exact Hc.
  now rewrite (IH Hs).
Qed.

Lemma join_surrogates_esc (c : N) (toks : list unit_tok) :
  is_high c = false ->
  join_surrogates (Esc c :: toks) = c :: join_surrogates toks.
Proof.
  intros H. destruct toks as [|[l|l] toks]; try reflexivity.
  cbn [join_surrogates]. now rewrite H.
Qed.

Lemma join_surrogates_units (s : pystr) :
  forallb scalar_value s = true ->
  join_surrogates (flat_map units_of_char s) = s.
Proof.
  induction s as [|c s IH]; [reflexivity|]. cbn [forallb flat_map].
  intros H. apply andb_true_iff in H as [Hc Hs].
  apply andb_true_iff in Hc as [Hc Hsur]. apply N.ltb_lt in Hc.
  apply negb_true_iff, orb_false_iff in Hsur as [Hhi Hlo].
  specialize (IH Hs). unfold units_of_char at 1.
  destruct ((c =? 92) || (c =? 34) || (c =? 8) || (c =? 12) || (c =? 10)
            || (c =? 13) || (c =? 9) || ((32 <=? c) && (c <=? 126)));
    [cbn [app join_surrogates]; now rewrite IH|].
  destruct (c <? 65536) eqn:Eb.
  - cbn [app]. now rewrite join_surrogates_esc, IH.
  - apply N.ltb_ge in Eb. cbv zeta.
    destruct (surrogates_of c (conj Eb Hc)) as (Hh & Hl & Hq).
    cbv zeta in Hh, Hl, Hq.
    pose proof (N.mod_upper_bound (c - 65536) 1024 ltac:(lia)) as Hr.
    rewrite Hh, Hl. cbn [app join_surrogates].
    replace (is_high (55296 + (c - 65536) / 1024)) with true
      by (symmetry; unfold is_high; apply andb_true_iff;
          split; apply N.leb_le; lia_div).
    replace (is_low (56320 + (c - 65536) mod 1024)) with true
      by (symmetry; unfold is_low; apply andb_true_iff;
          split; apply N.leb_le; lia_div).
    cbn [andb]. rewrite IH. f_equal.
    rewrite N.shiftl_mul_pow2. change (2 ^ 10) with 1024.
    replace (55296 + (c - 65536) / 1024 - 55296) with ((c - 65536) / 1024)
      by lia_div.
    replace (56320 + (c - 65536) mod 1024 - 56320)
      with ((c - 65536) mod 1024) by lia_div.
    change 1024 with (2 ^ 10) at 2. rewrite lor_high_low by exact Hr.
    change (2 ^ 10) with 1024.
    lia_div.
Qed.

Lemma read_json_string_encoded (s rest : pystr) :
  forallb scalar_value s = true ->
  read_json_string (encode_basestring_ascii s ++ rest) = Some (s, rest).
Proof.
  intros Hs. unfold encode_basestring_ascii, read_json_string.
  cbn [app]. rewrite <- app_assoc. cbn [app].
  rewrite read_string_body_encoded by exact Hs.
  now rewrite bind_Some, join_surrogates_units.
Qed.

(** *** Integers *)

Lemma read_nat_stop (acc : N) (rest : pystr) :
  no_digit_head rest -> read_nat acc rest = (acc, rest).
Proof. destruct rest as [|c rest]; [reflexivity|]. cbn. now intros ->. Qed.

Lemma of_lu_rev_cons (d : Decimal.uint) (k : Decimal.uint) :
  Unsigned.of_lu (Decimal.revapp d k)
  = Unsigned.of_lu (Decimal.rev d) + Unsigned.of_lu k * 10 ^ Unsigned.usize d.
Proof. apply Unsigned.of_lu_revapp. Qed.

Lemma read_nat_uint (d : Decimal.uint) : forall acc rest,
  no_digit_head rest ->
  read_nat acc (lit (NilEmpty.string_of_uint d) ++ rest)
  = (acc * 10 ^ Unsigned.usize d + Unsigned.of_lu (Decimal.rev d), rest).
Proof.
  induction d; intros acc rest Hrest;
    [cbn; rewrite read_nat_stop by assumption; f_equal; lia|..];
    cbn [NilEmpty.string_of_uint lit app read_nat];
    match goal with
    | |- context [is_digit ?c] => change (is_digit c) with true
    end;
    cbv iota; rewrite IHd by assumption; f_equal;
    unfold Decimal.rev at 2; cbn [Decimal.revapp];
    rewrite of_lu_rev_cons; cbn [Unsigned.usize Unsigned.of_lu];
    rewrite N.pow_succ_r';
    match goal with
    | |- context [N_of_ascii ?c - 48] =>
        let v := eval vm_compute in (N_of_ascii c - 48) in
        change (N_of_ascii c - 48) with v
    end; ring.
Qed.

Lemma read_nat_digits (d : Decimal.uint) (rest : pystr) :
  no_digit_head rest ->
  read_nat 0 (lit (NilZero.string_of_uint d) ++ rest)
  = (Pos.of_uint d, rest).
Proof.
  intros Hrest. rewrite Unsigned.of_uint_alt.
  destruct d; try (unfold NilZero.string_of_uint;
                   rewrite read_nat_uint by assumption; f_equal; lia).
  cbn. now rewrite read_nat_stop.
Qed.

Lemma digit_head (d : Decimal.uint) (rest : pystr) :
  exists c s, lit (NilZero.string_of_uint d) ++ rest = c :: s /\
              is_digit c = true /\ (c =? 45) = false.
Proof. destruct d; eexists _, _; repeat split. Qed.

Lemma read_int_str_int (z : Z) (rest : pystr) :
  no_digit_head rest -> read_int (str_int z ++ rest) = Some (z, rest).
Proof.
  intros Hrest. unfold str_int, NilZero.string_of_int.
  pose proof (DecimalZ.of_to z) as Hz.
  destruct (Z.to_int z) as [d|d]; cbn [Z.of_int] in Hz; unfold Z.of_uint in Hz.
  - pose proof (read_nat_digits d rest Hrest) as Hn.
    destruct (digit_head d rest) as (c & s & E & Hc & H45).
    rewrite E in *. unfold read_int. rewrite H45, Hc, Hn. now rewrite Hz.
  - pose proof (read_nat_digits d rest Hrest) as Hn.
    destruct (digit_head d rest) as (c & s & E & Hc & H45).
    cbn [lit app]. change (N_of_ascii "-") with 45.
    unfold read_int. change (45 =? 45) with true. cbv iota.
    rewrite E in *. rewrite Hc, Hn. now rewrite Hz.
Qed.


Lemma str_int_head (z : Z) (rest : pystr) :
  exists c s, str_int z ++ rest = c :: s /\ 45 <= c <= 57.
Proof.
  unfold str_int, NilZero.string_of_int.
  destruct (Z.to_int z) as [d|d].
  - destruct (digit_head d rest) as (c & s & E & Hc & _).
    exists c, s. split; [exact E|]. unfold is_digit in Hc.
    apply andb_true_iff in Hc as [H1 H2].
    apply N.leb_le in H1, H2. lia.
  - eexists _, _. split; [reflexivity|]. cbn. lia.
Qed.

(** *** Scalars and whole lines *)

Lemma read_scalar_json_scalar (m : pyval) (rest : pystr) :
  message_ok m = true -> no_digit_head rest ->
  read_scalar (json_scalar m ++ rest) = Some (m, rest).
Proof.
  intros Hm Hrest. destruct m as [|[|]|z|s]; cbn [json_scalar].
  - change (read_scalar (lit "null" ++ rest))
      with (r ← expect (lit "null") (lit "null" ++ rest); Some (PNone, r)).
    now rewrite expect_app.
  - change (read_scalar (lit "true" ++ rest))
      with (r ← expect (lit "true") (lit "true" ++ rest);
            Some (PBool true, r)).
    now rewrite expect_app.
  - change (read_scalar (lit "false" ++ rest))
      with (r ← expect (lit "false") (lit "false" ++ rest);
            Some (PBool false, r)).
    now rewrite expect_app.
  - destruct (str_int_head z rest) as (c & s & E & Hc).
    pose proof (read_int_str_int z rest Hrest) as Hz.
    rewrite E in *. unfold read_scalar.
    replace (c =? 34) with false by (symmetry; apply N.eqb_neq; lia).
    replace (c =? 110) with false by (symmetry; apply N.eqb_neq; lia).
    replace (c =? 116) with false by (symmetry; apply N.eqb_neq; lia).
    replace (c =? 102) with false by (symmetry; apply N.eqb_neq; lia).
    now rewrite Hz.
  - pose proof (read_json_string_encoded s rest Hm) as Hs.
    unfold encode_basestring_ascii in *. cbn [app] in *.
    unfold read_scalar. change (34 =? 34) with true. cbv iota.
    now rewrite Hs.
Qed.

Lemma level_of_value_value (l : Level.t) :
  level_of_value (Z.of_N (Level.value l)) = Some l.
Proof. now destruct l. Qed.

(** Decoding the line of a record gives the record back. *)
Lemma parse_record_json_formatter (t : datetime) (l : Level.t) (m : pyval) :
  datetime_valid t = true -> message_ok m = true ->
  parse_record
    (json_formatter {| rec_time := t; rec_level := l; rec_message := m |})
  = Some {| rec_time := t; rec_level := l; rec_message := m |}.
Proof.
  intros Hv Hm. rewrite json_formatter_shape.
  pose proof (fromisoformat_isoformat t Hv) as Hiso.
  pose proof (isoformat_plain t) as Hplain.
  revert Hiso Hplain. generalize (isoformat t) as iso. intros iso Hiso Hplain.
  unfold parse_record.
  match goal with
  | |- context [expect (lit "{") ((lit "{" ++ ?k) ++ ?s)] =>
      change (expect (lit "{") ((lit "{" ++ k) ++ s)) with (Some (k ++ s))
  end.
  rewrite bind_Some.
  match goal with
  | |- context [read_key "time" ((quoted "time" ++ lit ": " ++ [34]) ++ ?s)] =>
      change (read_key "time" ((quoted "time" ++ lit ": " ++ [34]) ++ s))
        with (Some (34 :: s))
  end.
  rewrite bind_Some. unfold read_json_string at 1.
  rewrite (read_string_body_plain iso _ Hplain), bind_Some.
  rewrite join_surrogates_raw, bind_Some, Hiso, bind_Some.
  rewrite expect_app, bind_Some.
  match goal with
  | |- context [read_key "level" (quoted "level" ++ lit ": " ++ ?s)] =>
      change (read_key "level" (quoted "level" ++ lit ": " ++ s))
        with (Some s)
  end.
  rewrite bind_Some, read_int_str_int by reflexivity.
  rewrite bind_Some, level_of_value_value, bind_Some.
  rewrite expect_app, bind_Some.
  match goal with
  | |- context [read_key "message" (quoted "message" ++ lit ": " ++ ?s)] =>
      change (read_key "message" (quoted "message" ++ lit ": " ++ s))
        with (Some s)
  end.
  rewrite bind_Some, read_scalar_json_scalar by (assumption || reflexivity).
  rewrite bind_Some, expect_self. reflexivity.
Qed.

(** C8: for the record with message "héllo", severity [Info] and any
    timestamp Python can hold, the line [json_formatter] makes is the JSON
    object with the ISO timestamp, the level 4 and the message with its
    "é" written as a [\u00e9] escape; it is ASCII (every code point below
    128), and decoding it gives back the record:
    the same message text, the same severity and the same timestamp, to the
    microsecond. *)
Theorem json_roundtrip_hello (t : datetime) :
  datetime_valid t = true ->
  let r := {| rec_time := t; rec_level := Level.Info;
              rec_message := PStr hello |} in
  json_formatter r
  = lit "{" ++ quoted "time" ++ lit ": " ++ [34] ++ isoformat t ++ [34]
    ++ lit ", " ++ quoted "level" ++ lit ": 4, " ++ quoted "message"
    ++ lit ": " ++ quoted "h\u00e9llo" ++ lit "}" /\
  forallb is_ascii (json_formatter r) = true /\
  parse_record (json_formatter r) = Some r.
Proof.
  intros Hv r. split; [|split].
  - unfold r. rewrite json_formatter_shape.
    generalize (isoformat t) as iso. intros iso. reflexivity.
  - apply json_formatter_ascii.
  - now apply parse_record_json_formatter.
Qed.

Lemma json_roundtrip_hello_witness :
  parse_record
    (json_formatter {| rec_time := sample_time; rec_level := Level.Info;
                       rec_message := PStr hello |})
  = Some {| rec_time := sample_time; rec_level := Level.Info;
            rec_message := PStr hello |}.
Proof.
  apply (json_roundtrip_hello sample_time). reflexivity.
Defined.

(** * Further properties *)

(** ** Names of severities *)

Lemma ensure_level_invalid (s : pystr) :
  (forall l, s <> level_name_lower l) ->
  _ensure_level (AStr s)
  = Raise (ValueError (Some (lit "Invalid level name: " ++ s))).
Proof.
  intros Hs. unfold _ensure_level.
  destruct (dict_get level_names s) as [l|] eqn:E; [|reflexivity].
  apply dict_get_names_spec in E. now destruct (Hs l).
Qed.

(** X1: [_ensure_level] does no case folding and no trimming: a string with
    any code point that is not a lower-case ASCII letter raises
    [ValueError] with the message "Invalid level name: " followed by the
    string; so do the names as [Enum] spells them ("Error", "Warning", ...)
    and the empty string. *)
Theorem ensure_level_lowercase_only (s : pystr) (l : Level.t) :
  (forallb is_lower_az s = false ->
   _ensure_level (AStr s)
   = Raise (ValueError (Some (lit "Invalid level name: " ++ s)))) /\
  _ensure_level (AStr (Level.name l))
  = Raise (ValueError (Some (lit "Invalid level name: " ++ Level.name l))) /\
  _ensure_level (AStr [])
  = Raise (ValueError (Some (lit "Invalid level name: "))).
Proof.
  split; [|split].
  - intros Hs. apply ensure_level_invalid. intros l' ->.
    now destruct l'.
  - apply ensure_level_invalid. intros l'. now destruct l, l'.
  - reflexivity.
Qed.

Lemma ensure_level_lowercase_only_witness :
  _ensure_level (AStr (lit " error"))
  = Raise (ValueError (Some (lit "Invalid level name: " ++ lit " error"))).
Proof.
  apply (ensure_level_lowercase_only (lit " error") Level.Error).
  reflexivity.
Defined.

(** ** Pushing and popping *)

(** X2: pushing a severity by its lower-case name is pushing the severity:
    the method calls and the module-level calls give the same result and
    the same world either way. *)
Theorem push_name_is_push_level (w : world) (self : ref) (l : Level.t) :
  Log.file_level self (Some (AStr (level_name_lower l))) w
  = Log.file_level self (Some (ALevel l)) w /\
  Log.level self (Some (AStr (level_name_lower l))) w
  = Log.level self (Some (ALevel l)) w /\
  file_level (Some (AStr (level_name_lower l))) w
  = file_level (Some (ALevel l)) w /\
  level (Some (AStr (level_name_lower l))) w = level (Some (ALevel l)) w.
Proof.
  assert (Hf : Log.file_level self (Some (AStr (level_name_lower l)))
               = Log.file_level self (Some (ALevel l))).
  { unfold Log.file_level. now rewrite ensure_level_name. }
  assert (Hs : Log.level self (Some (AStr (level_name_lower l)))
               = Log.level self (Some (ALevel l))).
  { unfold Log.level. now rewrite ensure_level_name. }
  repeat split.
  - now rewrite Hf.
  - now rewrite Hs.
  - unfold file_level, Log.file_level. now rewrite ensure_level_name.
  - unfold level, Log.level. now rewrite ensure_level_name.
Qed.

(** X3: pushing a string that is not one of the five names raises
    [ValueError] naming the string, before the stack is touched: the world
    is as it was.  This holds for both methods on any reference, and for
    both module-level functions when a global logger is installed. *)
Theorem push_invalid_name_raises (w : world) (self : ref) (s : pystr) :
  (forall l, s <> level_name_lower l) ->
  let e := ValueError (Some (lit "Invalid level name: " ++ s)) in
  Log.file_level self (Some (AStr s)) w = (Raise e, w) /\
  Log.level self (Some (AStr s)) w = (Raise e, w) /\
  (_LOG w <> None ->
   file_level (Some (AStr s)) w = (Raise e, w) /\
   level (Some (AStr s)) w = (Raise e, w)).
Proof.
  intros Hs e. pose proof (ensure_level_invalid s Hs) as E.
  assert (Hf : forall r, Log.file_level r (Some (AStr s)) w = (Raise e, w)).
  { intros r. unfold Log.file_level. unmonad. now rewrite E. }
  assert (Hl : forall r, Log.level r (Some (AStr s)) w = (Raise e, w)).
  { intros r. unfold Log.level. unmonad. now rewrite E. }
  split; [apply Hf|]. split; [apply Hl|].
  intros Hg. unfold file_level, level.
  destruct (_LOG w) as [g|]; [|contradiction].
  split.
  - now rewrite (bind_raise _ _ _ _ _ (Hf g)).
  - now rewrite (bind_raise _ _ _ _ _ (Hl g)).
Qed.

Lemma push_invalid_name_raises_witness :
  file_level (Some (AStr (lit "Debug"))) (imported (fun _ => true))
  = (Raise (ValueError (Some (lit "Invalid level name: " ++ lit "Debug"))),
     imported (fun _ => true)).
Proof.
  apply (push_invalid_name_raises (imported (fun _ => true)) 0%nat
           (lit "Debug")).
  - intros l; destruct l; discriminate.
  - discriminate.
Defined.

(** X4: a push on an existing instance appends the level to that stack, so
    it becomes the threshold; the other stack, the sinks, the stdout flag
    and the formatters of the instance, every other instance, the global
    slot and the trace are as before.  For the file stack and for the
    stdout stack. *)
Theorem push_sets_threshold (w : world) (self : ref) (o : log_obj)
    (a : level_arg) (v : Level.t) :
  heap w !! self = Some o -> _ensure_level a = Return v ->
  (exists o', Log.file_level self (Some a) w
              = (Return None, set_heap w (<[self := o']> (heap w))) /\
     _file_levels o' = _file_levels o ++ [v] /\
     threshold (_file_levels o') = Some v /\
     same_but_file_levels o o') /\
  (exists o', Log.level self (Some a) w
              = (Return None, set_heap w (<[self := o']> (heap w))) /\
     _levels o' = _levels o ++ [v] /\
     threshold (_levels o') = Some v /\
     same_but_levels o o') /\
  (forall r o', r <> self -> (<[self := o']> (heap w)) !! r = heap w !! r).
Proof.
  intros Hself Ha. split; [|split].
  - eexists. split; [exact (file_level_push w self o a v Hself Ha)|].
    cbn. split; [reflexivity|]. split; [apply last_snoc|].
    repeat split.
  - eexists. split; [exact (level_push w self o a v Hself Ha)|].
    cbn. split; [reflexivity|]. split; [apply last_snoc|].
    repeat split.
  - intros r o' Hr. now apply list_lookup_insert_ne.
Qed.

Lemma push_sets_threshold_witness :
  exists o', Log.level 0%nat (Some (AStr (lit "debug")))
               (imported (fun _ => true))
             = (Return None,
                set_heap (imported (fun _ => true))
                  (<[0%nat := o']> (heap (imported (fun _ => true))))) /\
    _levels o' = [Level.Log; Level.Debug].
Proof.
  destruct (push_sets_threshold (imported (fun _ => true)) 0%nat
              {| _file_levels := [Level.Log]; _levels := [Level.Log];
                 _stdout := true; _opaths := []; _ofiles := [];
                 _formatter := json_formatter;
                 _stdout_formatter := stdout_formatter |}
              (AStr (lit "debug")) Level.Debug eq_refl eq_refl)
    as (_ & (o' & E & Hst & _) & _).
  exists o'. split; [exact E|exact Hst].
Defined.

(** X5: a pop on a stack that ends in [a; b] returns [b] and leaves the
    stack ending in [a], which is the threshold again; nothing else in the
    instance and no other instance changes.  For both stacks. *)
Theorem pop_reverts_threshold (w : world) (self : ref) (o : log_obj)
    (st : list Level.t) (a b : Level.t) :
  heap w !! self = Some o ->
  (_file_levels o = st ++ [a; b] ->
   exists o', Log.file_level self None w
              = (Return (Some b), set_heap w (<[self := o']> (heap w))) /\
     _file_levels o' = st ++ [a] /\
     threshold (_file_levels o') = Some a /\
     same_but_file_levels o o') /\
  (_levels o = st ++ [a; b] ->
   exists o', Log.level self None w
              = (Return (Some b), set_heap w (<[self := o']> (heap w))) /\
     _levels o' = st ++ [a] /\
     threshold (_levels o') = Some a /\
     same_but_levels o o').
Proof.
  intros Hself.
  assert (Hlast : last (st ++ [a; b]) = Some b).
  { change [a; b] with ([a] ++ [b]). rewrite app_assoc. apply last_snoc. }
  assert (Hrem : removelast (st ++ [a; b]) = st ++ [a]).
  { change [a; b] with ([a] ++ [b]). rewrite app_assoc.
    apply removelast_last. }
  assert (Hlen : (2 <= length (st ++ [a; b]))%nat).
  { rewrite length_app. cbn. lia. }
  split; intros Hst.
  - eexists. split.
    + apply file_level_pop with (top := b); rewrite ?Hst; assumption.
    + cbn. rewrite Hst, Hrem. split; [reflexivity|].
      split; [apply last_snoc|]. repeat split.
  - eexists. split.
    + apply level_pop with (top := b); rewrite ?Hst; assumption.
    + cbn. rewrite Hst, Hrem. split; [reflexivity|].
      split; [apply last_snoc|]. repeat split.
Qed.

Lemma pop_reverts_threshold_witness :
  exists o', Log.file_level 0%nat None pushed_world
             = (Return (Some Level.Debug),
                set_heap pushed_world (<[0%nat := o']> (heap pushed_world)))
    /\ _file_levels o' = [Level.Log].
Proof.
  destruct (pop_reverts_threshold pushed_world 0%nat
              {| _file_levels := [Level.Log; Level.Debug];
                 _levels := [Level.Log; Level.Info];
                 _stdout := true; _opaths := []; _ofiles := [];
                 _formatter := json_formatter;
                 _stdout_formatter := stdout_formatter |}
              [] Level.Log Level.Debug eq_refl) as [Hf _].
  destruct (Hf eq_refl) as (o' & E & Hst & _).
  exists o'. split; [exact E|exact Hst].
Defined.

(** *** Nested pushes and pops *)

Section LIFO.

Variable push : Level.t -> M (option Level.t).
Variable pop : M (option Level.t).
Variable good : world -> Prop.

Hypothesis push_good : forall v w, good w ->
  exists r w', push v w = (Return r, w') /\ good w'.
Hypothesis push_pop : forall v w, good w ->
  (push v ;; pop) w = (Return (Some v), w).

Lemma push_all_good (vs : list Level.t) : forall w, good w ->
  exists w', push_all push vs w = (Return tt, w') /\ good w'.
Proof.
  induction vs as [|v vs IH]; intros w Hw; [now exists w|].
  destruct (push_good v w Hw) as (r & w1 & E1 & Hw1).
  destruct (IH w1 Hw1) as (w' & E' & Hw').
  exists w'. split; [|assumption].
  cbn [push_all]. now rewrite (bind_return _ _ _ _ _ E1).
Qed.

Lemma push_all_snoc (vs : list Level.t) (v : Level.t) (w : world) :
  push_all push (vs ++ [v]) w = (push_all push vs ;; push v ;; ret tt) w.
Proof.
  revert w. induction vs as [|x vs IH]; intros w; cbn [app push_all].
  - unmonad. now destruct (push v w) as [[r|e] w'].
  - unmonad. destruct (push x w) as [[r|e] w1]; [|reflexivity].
    rewrite IH. reflexivity.
Qed.

(** After the pushes [vs], as many pops return the levels in reverse and
    give the starting world back. *)
Lemma lifo (vs : list Level.t) : forall w, good w ->
  (push_all push vs ;; pop_n pop (length vs)) w
  = (Return (map Some (rev vs)), w).
Proof.
  induction vs as [|v vs IH] using rev_ind; intros w Hw; [reflexivity|].
  rewrite length_app, Nat.add_comm, rev_unit. cbn [length Nat.add map pop_n].
  destruct (push_all_good vs w Hw) as (w1 & E1 & Hw1).
  pose proof (push_pop v w1 Hw1) as Epp.
  pose proof (IH w Hw) as Hrec.
  unfold mbind, M_bind, bind in *. rewrite push_all_snoc.
  unfold mbind, M_bind, bind, mret, M_ret, ret. rewrite E1 in *.
  destruct (push v w1) as [[r|e] w2]; [|discriminate].
  destruct (pop w2) as [[x|e] w3]; [|discriminate].
  injection Epp as -> ->.
  destruct (pop_n pop (length vs) w1) as [[xs|e] w4]; [|discriminate].
  now injection Hrec as -> ->.
Qed.

End LIFO.

Lemma seq_assoc {A B C} (a : M A) (b : M B) (c : M C) (w : world) :
  (a ;; b ;; c) w = ((a ;; b) ;; c) w.
Proof.
  unmonad. destruct (a w) as [[x|e] w1]; [|reflexivity].
  now destruct (b w1) as [[y|e] w2].
Qed.

Lemma file_push_good (self : ref) (v : Level.t) (w : world) :
  (exists o, heap w !! self = Some o /\ _file_levels o <> []) ->
  exists r w', Log.file_level self (Some (ALevel v)) w = (Return r, w') /\
    exists o, heap w' !! self = Some o /\ _file_levels o <> [].
Proof.
  intros (o & Hself & Hne). eexists _, _. split.
  - exact (file_level_push w self o (ALevel v) v Hself eq_refl).
  - eexists. split.
    + cbn. apply list_lookup_insert_eq. eapply lookup_lt_Some; eauto.
    + cbn. now destruct (_file_levels o).
Qed.

Lemma stdout_push_good (self : ref) (v : Level.t) (w : world) :
  (exists o, heap w !! self = Some o /\ _levels o <> []) ->
  exists r w', Log.level self (Some (ALevel v)) w = (Return r, w') /\
    exists o, heap w' !! self = Some o /\ _levels o <> [].
Proof.
  intros (o & Hself & Hne). eexists _, _. split.
  - exact (level_push w self o (ALevel v) v Hself eq_refl).
  - eexists. split.
    + cbn. apply list_lookup_insert_eq. eapply lookup_lt_Some; eauto.
    + cbn. now destruct (_levels o).
Qed.

Lemma lifo_file (w : world) (self : ref) (o : log_obj) (vs : list Level.t) :
  heap w !! self = Some o -> _file_levels o <> [] ->
  (push_all (fun v => Log.file_level self (Some (ALevel v))) vs ;;
   pop_n (Log.file_level self None) (length vs)) w
  = (Return (map Some (rev vs)), w).
Proof.
  intros Hself Hne.
  apply (lifo _ _
           (fun w => exists o,
              heap w !! self = Some o /\ _file_levels o <> [])).
  - intros v w0. apply file_push_good.
  - intros v w0 (o0 & H0 & Hne0). now apply (push_then_pop_file w0 self o0).
  - eauto.
Qed.

Lemma lifo_stdout (w : world) (self : ref) (o : log_obj) (vs : list Level.t) :
  heap w !! self = Some o -> _levels o <> [] ->
  (push_all (fun v => Log.level self (Some (ALevel v))) vs ;;
   pop_n (Log.level self None) (length vs)) w
  = (Return (map Some (rev vs)), w).
Proof.
  intros Hself Hne.
  apply (lifo _ _
           (fun w => exists o, heap w !! self = Some o /\ _levels o <> [])).
  - intros v w0. apply stdout_push_good.
  - intros v w0 (o0 & H0 & Hne0). now apply (push_then_pop_stdout w0 self o0).
  - eauto.
Qed.

(** X6: the level stacks are last-in first-out: after pushing the levels
    [vs] in order on a well-formed instance, [length vs] pops return them in
    reverse order and leave the world exactly as it was before the pushes.
    For the file stack and for the stdout stack. *)
Theorem nested_push_pop_lifo (w : world) (self : ref) (o : log_obj)
    (vs : list Level.t) :
  heap w !! self = Some o -> wf_obj o ->
  (push_all (fun v => Log.file_level self (Some (ALevel v))) vs ;;
   pop_n (Log.file_level self None) (length vs)) w
  = (Return (map Some (rev vs)), w) /\
  (push_all (fun v => Log.level self (Some (ALevel v))) vs ;;
   pop_n (Log.level self None) (length vs)) w
  = (Return (map Some (rev vs)), w).
Proof.
  intros Hself [Hf Hs]. split.
  - now apply (lifo_file w self o).
  - now apply (lifo_stdout w self o).
Qed.

Lemma nested_push_pop_lifo_witness :
  (push_all (fun v => Log.file_level 0%nat (Some (ALevel v)))
     [Level.Debug; Level.Error; Level.Info] ;;
   pop_n (Log.file_level 0%nat None) 3) (imported (fun _ => true))
  = (Return [Some Level.Info; Some Level.Error; Some Level.Debug],
     imported (fun _ => true)).
Proof.
  eapply (nested_push_pop_lifo (imported (fun _ => true)) 0%nat _
            [Level.Debug; Level.Error; Level.Info]).
  - reflexivity.
  - split; discriminate.
Defined.

(** X7: the initial level cannot be popped: on an instance whose stack has
    length 1, after any pushes and as many pops, one more pop raises
    [ValueError] and the world is the one before the pushes.  For both
    stacks. *)
Theorem pops_bounded_by_pushes (w : world) (self : ref) (o : log_obj)
    (vs : list Level.t) :
  heap w !! self = Some o ->
  (length (_file_levels o) = 1%nat ->
   (push_all (fun v => Log.file_level self (Some (ALevel v))) vs ;;
    pop_n (Log.file_level self None) (length vs) ;;
    Log.file_level self None) w
   = (Raise (ValueError None), w)) /\
  (length (_levels o) = 1%nat ->
   (push_all (fun v => Log.level self (Some (ALevel v))) vs ;;
    pop_n (Log.level self None) (length vs) ;;
    Log.level self None) w
   = (Raise (ValueError None), w)).
Proof.
  intros Hself. split; intros Hlen.
  - rewrite seq_assoc.
    rewrite (bind_return _ _ _ _ _ (lifo_file w self o vs Hself
               ltac:(now destruct (_file_levels o)))).
    unfold Log.file_level. unmonad. now rewrite Hself, Hlen.
  - rewrite seq_assoc.
    rewrite (bind_return _ _ _ _ _ (lifo_stdout w self o vs Hself
               ltac:(now destruct (_levels o)))).
    unfold Log.level. unmonad. now rewrite Hself, Hlen.
Qed.

Lemma pops_bounded_by_pushes_witness :
  (push_all (fun v => Log.level 0%nat (Some (ALevel v)))
     [Level.Debug; Level.Error] ;;
   pop_n (Log.level 0%nat None) 2 ;;
   Log.level 0%nat None) (imported (fun _ => true))
  = (Raise (ValueError None), imported (fun _ => true)).
Proof.
  eapply (pops_bounded_by_pushes (imported (fun _ => true)) 0%nat _
            [Level.Debug; Level.Error]); reflexivity.
Defined.

(** ** Filtering *)

(** X8: a pushed level governs the next [log] call: after pushing [v] on
    the file stack, [log(message, S)] writes to the sinks exactly when
    [value S <= value v], whatever the stack held before, while the print
    still follows the stdout threshold [Tc]; and symmetrically for a push
    on the stdout stack. *)
Theorem push_then_log (w : world) (self : ref) (o : log_obj)
    (now : datetime) (message : pyval) (v S T Tc : Level.t) :
  heap w !! self = Some o ->
  threshold (_file_levels o) = Some T -> threshold (_levels o) = Some Tc ->
  let r := {| rec_time := now; rec_level := S; rec_message := message |} in
  trace (snd ((Log.file_level self (Some (ALevel v)) ;;
               Log.log self now message (Some (ALevel S))) w))
  = trace w ++ emitted o r (Level.value S <=? Level.value v)
                 (Level.value S <=? Level.value Tc) /\
  trace (snd ((Log.level self (Some (ALevel v)) ;;
               Log.log self now message (Some (ALevel S))) w))
  = trace w ++ emitted o r (Level.value S <=? Level.value T)
                 (Level.value S <=? Level.value v).
Proof.
  intros Hself HT HTc r. unfold threshold in *.
  assert (Hlt : (self < length (heap w))%nat)
    by (eapply lookup_lt_Some; eauto).
  split.
  - rewrite (bind_return _ _ _ _ _
               (file_level_push w self o (ALevel v) v Hself eq_refl)).
    erewrite log_level_eq;
      [|cbn; now apply list_lookup_insert_eq|cbn; apply last_snoc|exact HTc].
    reflexivity.
  - rewrite (bind_return _ _ _ _ _
               (level_push w self o (ALevel v) v Hself eq_refl)).
    erewrite log_level_eq;
      [|cbn; now apply list_lookup_insert_eq|exact HT|cbn; apply last_snoc].
    reflexivity.
Qed.

Lemma push_then_log_witness :
  trace (snd ((Log.level 0%nat (Some (ALevel Level.Debug)) ;;
               Log.log 0%nat sample_time (PStr hello)
                 (Some (ALevel Level.Info))) (imported (fun _ => true))))
  = [EPrint (stdout_formatter {| rec_time := sample_time;
                                 rec_level := Level.Info;
                                 rec_message := PStr hello |})].
Proof.
  apply (push_then_log (imported (fun _ => true)) 0%nat
           {| _file_levels := [Level.Log]; _levels := [Level.Log];
              _stdout := true; _opaths := []; _ofiles := [];
              _formatter := json_formatter;
              _stdout_formatter := stdout_formatter |}
           sample_time (PStr hello) Level.Debug Level.Info Level.Log
           Level.Log eq_refl eq_refl eq_refl).
Defined.

(** X9: what each convenience method lets through: [error] is never
    filtered; [warn] passes unless the threshold is [Error]; [info] passes
    when the threshold is [Info] or [Debug]; [debug] passes only when it is
    [Debug].  Each channel is tested against its own threshold. *)
Theorem convenience_admission (w : world) (self : ref) (o : log_obj)
    (now : datetime) (m : pyval) (T Tc : Level.t) :
  heap w !! self = Some o ->
  threshold (_file_levels o) = Some T -> threshold (_levels o) = Some Tc ->
  let r l := {| rec_time := now; rec_level := l; rec_message := m |} in
  let same (l l' : Level.t) : bool := bool_decide (l = l') in
  Log.error self now m w
  = (Return None, add_events w (emitted o (r Level.Error) true true)) /\
  Log.warn self now m w
  = (Return None,
     add_events w (emitted o (r Level.Warning)
                     (negb (same T Level.Error))
                     (negb (same Tc Level.Error)))) /\
  Log.info self now m w
  = (Return None,
     add_events w (emitted o (r Level.Info)
                     (same T Level.Info || same T Level.Debug)
                     (same Tc Level.Info || same Tc Level.Debug))) /\
  Log.debug self now m w
  = (Return None,
     add_events w (emitted o (r Level.Debug)
                     (same T Level.Debug) (same Tc Level.Debug))).
Proof.
  intros Hself HT HTc r same. unfold threshold in *.
  unfold Log.error, Log.warn, Log.info, Log.debug.
  repeat split;
    rewrite (log_level_eq w self o now m _ T Tc Hself HT HTc);
    unfold emitted; now destruct T, Tc.
Qed.

Lemma convenience_admission_witness :
  Log.debug 1%nat sample_time (PStr hello) two_loggers
  = (Return None,
     add_events two_loggers
       [EWrite 3%nat
          (json_formatter {| rec_time := sample_time;
                             rec_level := Level.Debug;
                             rec_message := PStr hello |} ++ [10])]).
Proof.
  apply (convenience_admission two_loggers 1%nat
           {| _file_levels := [Level.Debug]; _levels := [Level.Debug];
              _stdout := false; _opaths := [OFile 3%nat];
              _ofiles := [3%nat];
              _formatter := json_formatter;
              _stdout_formatter := stdout_formatter |}
           sample_time (PStr hello) Level.Debug Level.Debug
           eq_refl eq_refl eq_refl).
Defined.

(** X10: filtering is monotone in the severity: on a well-formed instance,
    if a [log] call at severity [S] adds no event, then neither does a call
    at a less urgent severity [S'] ([value S <= value S']), for any
    message. *)
Theorem silent_for_less_urgent (w : world) (self : ref) (o : log_obj)
    (now now' : datetime) (m m' : pyval) (S S' : Level.t) :
  heap w !! self = Some o -> wf_obj o ->
  Level.value S <= Level.value S' ->
  Log.log self now m (Some (ALevel S)) w = (Return None, w) ->
  Log.log self now' m' (Some (ALevel S')) w = (Return None, w).
Proof.
  intros Hself [Hf Hs] Hle.
  destruct (last_nonempty _ Hf) as [T HT].
  destruct (last_nonempty _ Hs) as [Tc HTc].
  rewrite !(log_level_eq w self o _ _ _ T Tc Hself HT HTc).
  intros E. injection E as E.
  assert (Hnil : forall evs, add_events w evs = w -> evs = []).
  { intros evs Hevs. apply (f_equal trace) in Hevs. cbn in Hevs.
    rewrite <- (app_nil_r (trace w)) in Hevs at 2.
    now apply app_inv_head in Hevs. }
  apply Hnil, app_eq_nil in E as [E1 E2].
  assert (Hmono : forall X, (Level.value S <=? Level.value X) = false ->
                            (Level.value S' <=? Level.value X) = false).
  { intros X HX. apply N.leb_gt in HX. apply N.leb_gt. lia. }
  f_equal.
  replace (if Level.value S' <=? Level.value T then _ else _)
    with (@nil event).
  - replace (if _stdout o && (Level.value S' <=? Level.value Tc)
             then _ else _) with (@nil event);
      [apply add_events_nil|].
    destruct (_stdout o); [|reflexivity]. cbn in *.
    destruct (Level.value S <=? Level.value Tc) eqn:Ec; [discriminate|].
    now rewrite (Hmono _ Ec).
  - destruct (Level.value S <=? Level.value T) eqn:Et.
    + destruct (_ofiles o); [|discriminate].
      now destruct (Level.value S' <=? Level.value T).
    + now rewrite (Hmono _ Et).
Qed.

Lemma silent_for_less_urgent_witness :
  Log.log 0%nat sample_time PNone (Some (ALevel Level.Debug))
    (imported (fun _ => true))
  = (Return None, imported (fun _ => true)).
Proof.
  apply (silent_for_less_urgent (imported (fun _ => true)) 0%nat
           {| _file_levels := [Level.Log]; _levels := [Level.Log];
              _stdout := true; _opaths := []; _ofiles := [];
              _formatter := json_formatter;
              _stdout_formatter := stdout_formatter |}
           sample_time sample_time (PStr hello) PNone Level.Info
           Level.Debug eq_refl).
  - split; discriminate.
  - vm_compute. discriminate.
  - reflexivity.
Defined.

(** ** What the calls do to the outside *)


Lemma own_writes (o : log_obj) (text : pystr) :
  Forall (own_output o) (map (fun f => EWrite f text) (_ofiles o)).
Proof.
  apply Forall_forall. intros e He. apply list_elem_of_In, in_map_iff in He.
  destruct He as (f & <- & Hf). cbn. now apply list_elem_of_In.
Qed.

(** The events of a [log] call, in every case: writes to the sinks of the
    instance and a print when its stdout is on. *)
Lemma log_events (w : world) (self : ref) (now : datetime) (m : pyval)
    (lvl : option level_arg) :
  exists evs, snd (Log.log self now m lvl w) = add_events w evs /\
    match heap w !! self with
    | Some o => Forall (own_output o) evs
    | None => evs = []
    end.
Proof.
  unfold Log.log. unmonad.
  destruct (heap w !! self) as [o|]; cbn;
    [|exists []; now rewrite add_events_nil].
  destruct (last (_file_levels o)) as [T|]; cbn;
    [|exists []; now rewrite add_events_nil].
  destruct (default (ALevel Level.Log) lvl) as [s|S]; cbn;
    [exists []; now rewrite add_events_nil|].
  destruct (Level.value S <=? Level.value T); cbn;
    rewrite ?write_all_events; cbn;
    (destruct (_stdout o) eqn:Hso; cbn;
     [destruct (last (_levels o)) as [Tc|]; cbn;
      [destruct (Level.value S <=? Level.value Tc); cbn|]|]);
    rewrite ?emit_add_events, ?add_events_app;
    eexists;
    (split; [first [reflexivity | now rewrite add_events_nil]|]);
    rewrite ?Forall_app; repeat split;
    try apply own_writes; try apply Forall_nil_2;
    try (apply Forall_singleton; exact Hso).
Qed.

(** X11: a [log] call on an instance only writes to the sinks of that
    instance, prints only if its stdout flag is on, and opens no file; so
    an instance without sinks and without stdout is silent.  This holds in
    every case, also when the call raises. *)
Theorem log_only_own_outputs (w : world) (self : ref) (o : log_obj)
    (now : datetime) (m : pyval) (lvl : option level_arg) :
  heap w !! self = Some o ->
  exists evs, snd (Log.log self now m lvl w) = add_events w evs /\
    Forall (own_output o) evs /\
    (_ofiles o = [] -> _stdout o = false -> evs = []).
Proof.
  intros Hself. destruct (log_events w self now m lvl) as (evs & E & Hown).
  rewrite Hself in Hown. exists evs. split; [exact E|]. split; [exact Hown|].
  intros Hno Hso. destruct evs as [|e evs]; [reflexivity|].
  apply Forall_cons in Hown as [He _]. destruct e as [p f|f t|t]; cbn in He.
  - contradiction.
  - rewrite Hno in He. now apply elem_of_nil in He.
  - congruence.
Qed.

Lemma log_only_own_outputs_witness :
  exists evs,
    snd (Log.log 1%nat sample_time (PStr hello) None two_loggers)
    = add_events two_loggers evs /\
    Forall (own_output {| _file_levels := [Level.Debug];
                          _levels := [Level.Debug];
                          _stdout := false; _opaths := [OFile 3%nat];
                          _ofiles := [3%nat];
                          _formatter := json_formatter;
                          _stdout_formatter := stdout_formatter |}) evs.
Proof.
  destruct (log_only_own_outputs two_loggers 1%nat _ sample_time
              (PStr hello) None eq_refl) as (evs & E & Hown & _).
  exists evs. split; [exact E|exact Hown].
Defined.




(** ** Reachable worlds *)



(** ** The facade *)

(** X14: with a global logger [g] installed, the module-level [log],
    [error], [warn], [info] and [debug] are the methods of [g]: same result
    and same world.  With none installed they return without doing
    anything. *)
Theorem facade_logs_through_global (w : world) (now : datetime) (m : pyval)
    (lvl : option level_arg) :
  (forall g, _LOG w = Some g ->
     log now m lvl w = Log.log g now m lvl w /\
     error now m w = Log.error g now m w /\
     warn now m w = Log.warn g now m w /\
     info now m w = Log.info g now m w /\
     debug now m w = Log.debug g now m w) /\
  (_LOG w = None ->
     log now m lvl w = (Return None, w) /\
     error now m w = (Return None, w) /\
     warn now m w = (Return None, w) /\
     info now m w = (Return None, w) /\
     debug now m w = (Return None, w) /\
     file_level lvl w = (Return None, w) /\
     level lvl w = (Return None, w)).
Proof.
  split.
  - intros g Hg. unfold error, warn, info, debug,
      Log.error, Log.warn, Log.info, Log.debug.
    repeat split; now apply facade_log_delegates.
  - intros Hg. unfold error, warn, info, debug, log, file_level, level.
    rewrite Hg. repeat split.
Qed.

Lemma facade_logs_through_global_witness :
  error sample_time (PStr hello) (imported (fun _ => true))
  = Log.error 0%nat sample_time (PStr hello) (imported (fun _ => true)).
Proof.
  apply (proj1 (facade_logs_through_global (imported (fun _ => true))
                  sample_time (PStr hello) None) 0%nat).
  reflexivity.
Defined.

(** X15: with a global logger [g] installed, the module-level [file_level]
    and [level] leave the world that the methods of [g] leave, and raise
    exactly when those raise, with the same exception; what they return is
    always [None]. *)
Theorem facade_stack_ops_mirror (w : world) (g : ref)
    (a : option level_arg) :
  _LOG w = Some g ->
  (snd (file_level a w) = snd (Log.file_level g a w) /\
   (forall e, fst (file_level a w) = Raise e
              <-> fst (Log.file_level g a w) = Raise e) /\
   (forall v, fst (file_level a w) = Return v -> v = None)) /\
  (snd (level a w) = snd (Log.level g a w) /\
   (forall e, fst (level a w) = Raise e
              <-> fst (Log.level g a w) = Raise e) /\
   (forall v, fst (level a w) = Return v -> v = None)).
Proof.
  intros Hg. unfold file_level, level. rewrite Hg. unmonad. split.
  - destruct (Log.file_level g a w) as [[r|e] w']; cbn;
      repeat split; congruence.
  - destruct (Log.level g a w) as [[r|e] w']; cbn;
      repeat split; congruence.
Qed.

Lemma facade_stack_ops_mirror_witness :
  fst (level None (imported (fun _ => true))) = Raise (ValueError None).
Proof.
  apply (facade_stack_ops_mirror (imported (fun _ => true)) 0%nat None
           eq_refl).
  reflexivity.
Defined.


(** X17: [set_global] supports save and restore: when [p] is the global
    logger, [B.set_global()] returns [p], and then [p.set_global()] returns
    [B] and gives back the world as it was before the two calls. *)
Theorem set_global_restores (w : world) (p B : ref) :
  _LOG w = Some p ->
  Log.set_global B w = (Return (Some p), set_LOG w (Some B)) /\
  (Log.set_global B ;; Log.set_global p) w = (Return (Some B), w).
Proof.
  intros Hp. unfold Log.set_global. unmonad. cbn. rewrite Hp.
  split; [reflexivity|]. f_equal. destruct w; cbn in *. now subst.
Qed.

Lemma set_global_restores_witness :
  (Log.set_global 1%nat ;; Log.set_global 0%nat) two_loggers
  = (Return (Some 1%nat), two_loggers).
Proof.
  apply (set_global_restores two_loggers 0%nat 1%nat). reflexivity.
Defined.

(** ** The constructor *)

Lemma open_all_spec (ops : list opath) : forall w,
  open_all ops w
  = ((if forallb (openable w) (omap opath_path ops)
      then Return (map as_path ops, sink_fds (next_fd w) ops)
      else Raise OSError),
     {| heap := heap w; _LOG := _LOG w; openable := openable w;
        next_fd := (next_fd w
                    + length (opened_prefix (openable w)
                                (omap opath_path ops)))%nat;
        trace := trace w
                 ++ open_events (next_fd w)
                      (opened_prefix (openable w) (omap opath_path ops)) |}).
Proof.
  induction ops as [|op rest IH]; intros w.
  - cbn. rewrite Nat.add_0_r, app_nil_r. now destruct w.
  - assert (Hopen : forall (b : bool) p,
              open_all ((if b then OStr p else OPath p) :: rest) w
              = ((if forallb (openable w) (p :: omap opath_path rest)
                  then Return (OPath p :: map as_path rest,
                               next_fd w :: sink_fds (S (next_fd w)) rest)
                  else Raise OSError),
                 {| heap := heap w; _LOG := _LOG w; openable := openable w;
                    next_fd := (next_fd w
                                + length (opened_prefix (openable w)
                                            (p :: omap opath_path rest)))%nat;
                    trace := trace w
                             ++ open_events (next_fd w)
                                  (opened_prefix (openable w)
                                     (p :: omap opath_path rest)) |})).
    { intros b p. cbn [open_all forallb opened_prefix]. unmonad.
      unfold py_open.
      destruct b;
        (destruct (openable w p) eqn:Hp; cbn;
         [rewrite IH; cbn;
          destruct (forallb (openable w) (omap opath_path rest)); cbn;
          rewrite <- app_assoc, Nat.add_succ_r; reflexivity
         |rewrite Nat.add_0_r, app_nil_r; now destruct w]). }
    destruct op as [p|p|f].
    + exact (Hopen true p).
    + exact (Hopen false p).
    + change (omap opath_path (OFile f :: rest))
        with (omap opath_path rest).
      cbn [open_all]. unmonad. rewrite IH. cbn.
      now destruct (forallb (openable w) (omap opath_path rest)).
Qed.

Lemma sink_fds_length (ops : list opath) : forall n,
  length (sink_fds n ops) = length ops.
Proof.
  induction ops as [|[p|p|f] rest IH]; intros n; cbn; auto.
Qed.

Lemma sink_fds_lookup (ops : list opath) : forall n i op,
  ops !! i = Some op ->
  exists f, sink_fds n ops !! i = Some f /\
    match op with
    | OFile f' => f = f'
    | _ => (n <= f < n + length (omap opath_path ops))%nat
    end.
Proof.
  induction ops as [|op0 rest IH]; intros n i op Hi; [discriminate|].
  destruct i as [|i].
  - cbn in Hi. injection Hi as ->. destruct op as [p|p|f0]; cbn;
      eexists; (split; [reflexivity|]); lia || reflexivity.
  - cbn in Hi. destruct op0 as [p|p|f0]; cbn.
    + destruct (IH (S n) i op Hi) as (f & Hf & Hop). exists f.
      split; [exact Hf|]. destruct op; lia || assumption.
    + destruct (IH (S n) i op Hi) as (f & Hf & Hop). exists f.
      split; [exact Hf|]. destruct op; lia || assumption.
    + destruct (IH n i op Hi) as (f & Hf & Hop). exists f.
      split; [exact Hf|]. destruct op; assumption.
Qed.

Lemma opened_prefix_all (can_open : pystr -> bool) (ps : list pystr) :
  forallb can_open ps = true -> opened_prefix can_open ps = ps.
Proof.
  induction ps as [|p ps IH]; [reflexivity|]. cbn.
  intros H. apply andb_true_iff in H as [-> H]. now rewrite IH.
Qed.

(** X18: the constructor returns exactly when every path among its
    positional arguments can be opened.  It then opens these paths once
    each, in argument order, and adds one instance to the store (no other
    instance and not the global slot changes) that has one sink per
    argument, in order: a file-like argument is kept as its own sink, a
    path argument gets the file object just opened for it, and a [str]
    path is stored as a [Path]. *)
Theorem init_opens_paths_in_order (w : world) (ops : list opath)
    (fl : option Level.t) (fmt : option Formatter) (so : option bool)
    (sl : option Level.t) (sfmt : option Formatter) :
  let res := Log.__init__ ops fl fmt so sl sfmt w in
  let paths := omap opath_path ops in
  ((exists r, fst res = Return r)
   <-> forallb (openable w) paths = true) /\
  (forallb (openable w) paths = true ->
   exists o,
     res = (Return (length (heap w)),
            {| heap := heap w ++ [o]; _LOG := _LOG w;
               openable := openable w;
               next_fd := (next_fd w + length paths)%nat;
               trace := trace w ++ open_events (next_fd w) paths |}) /\
     _opaths o = map as_path ops /\
     _ofiles o = sink_fds (next_fd w) ops /\
     length (_ofiles o) = length ops /\
     (forall i f, ops !! i = Some (OFile f) -> _ofiles o !! i = Some f) /\
     (forall i p, opath_path <$> ops !! i = Some (Some p) ->
        exists f, _ofiles o !! i = Some f /\
                  (next_fd w <= f < next_fd w + length paths)%nat)).
Proof.
  cbv zeta. unfold Log.__init__. unmonad. unfold alloc.
  rewrite open_all_spec.
  destruct (forallb (openable w) (omap opath_path ops)) eqn:Hall; cbn.
  - split; [split; eauto|]. intros _. eexists. split; [|cbn].
    + rewrite opened_prefix_all by exact Hall. reflexivity.
    + split; [reflexivity|]. split; [reflexivity|].
      split; [apply sink_fds_length|]. split.
      * intros i f Hi.
        destruct (sink_fds_lookup ops (next_fd w) i _ Hi) as (f' & Hf & ->).
        exact Hf.
      * intros i p Hi. destruct (ops !! i) as [op|] eqn:Hop; [|discriminate].
        destruct (sink_fds_lookup ops (next_fd w) i _ Hop) as (f' & Hf & Hb).
        exists f'. split; [exact Hf|].
        destruct op; cbn in Hi; try discriminate; exact Hb.
  - split; [|discriminate]. split; [intros [r Hr]|]; discriminate.
Qed.

Lemma init_opens_paths_in_order_witness :
  exists o,
    Log.__init__ [OStr (lit "a.log"); OFile 9%nat; OPath (lit "b.log")]
      None None None None None (imported (fun _ => true))
    = (Return 1%nat,
       {| heap := heap (imported (fun _ => true)) ++ [o];
          _LOG := Some 0%nat; openable := fun _ => true; next_fd := 2%nat;
          trace := [EOpen (lit "a.log") 0%nat; EOpen (lit "b.log") 1%nat] |})
    /\ _ofiles o = [0%nat; 9%nat; 1%nat].
Proof.
  destruct (proj2 (init_opens_paths_in_order (imported (fun _ => true))
                     [OStr (lit "a.log"); OFile 9%nat; OPath (lit "b.log")]
                     None None None None None) eq_refl)
    as (o & E & _ & Hfiles & _).
  exists o. split; [exact E|exact Hfiles].
Defined.



(** ** The invariant of the instances *)

Lemma as_path_idem (ops : list opath) :
  Forall (fun op => as_path op = op) (map as_path ops).
Proof.
  apply Forall_forall. intros op Hop.
  apply list_elem_of_In, in_map_iff in Hop as (op' & <- & _).
  now destruct op'.
Qed.

Lemma exec_obj_inv (c : call) (w : world) :
  Forall obj_inv (heap w) -> Forall obj_inv (heap (exec c w)).
Proof.
  intros Hall.
  assert (Hfile : forall self a,
            Forall obj_inv (heap (snd (Log.file_level self a w)))).
  { intros self a.
    destruct (file_level_cases self a w)
      as [[e ->]|(o & stack & r & Hself & Hne & ->)]; [exact Hall|].
    cbn. apply Forall_insert; [exact Hall|].
    destruct (proj1 (Forall_lookup _ _) Hall self o Hself)
      as ([_ Hs] & Hlen & Hp).
    repeat split; assumption. }
  assert (Hlev : forall self a,
            Forall obj_inv (heap (snd (Log.level self a w)))).
  { intros self a.
    destruct (level_cases self a w)
      as [[e ->]|(o & stack & r & Hself & Hne & ->)]; [exact Hall|].
    cbn. apply Forall_insert; [exact Hall|].
    destruct (proj1 (Forall_lookup _ _) Hall self o Hself)
      as ([Hf _] & Hlen & Hp).
    repeat split; assumption. }
  destruct c as [ops fl fmt so sl sfmt|self|self a|self a|self now m l|self
                |a|a|now m l]; cbn [exec].
  - unfold Log.__init__. unmonad. unfold alloc. rewrite open_all_spec.
    destruct (forallb (openable w) (omap opath_path ops)); cbn;
      [|exact Hall].
    apply Forall_app. split; [exact Hall|]. constructor; [|constructor].
    split; [split; cbn; [discriminate|now destruct sl]|]. cbn.
    split; [now rewrite length_map, sink_fds_length|apply as_path_idem].
  - exact Hall.
  - apply Hfile.
  - apply Hlev.
  - now destruct (log_world w self now m l) as [evs ->].
  - exact Hall.
  - unfold file_level. destruct (_LOG w) as [g|]; [|exact Hall].
    rewrite bind_ret_snd. apply Hfile.
  - unfold level. destruct (_LOG w) as [g|]; [|exact Hall].
    rewrite bind_ret_snd. apply Hlev.
  - now destruct (facade_log_world w now m l) as [evs ->].
Qed.

(** X20: in every world reachable from the import by calls of the public
    interface, every instance has two non-empty level stacks, as many sinks
    as stored paths, and no [str] left among the stored paths; and the
    global slot holds an existing instance. *)
Theorem reachable_instances_well_formed (w : world) :
  reachable w ->
  Forall obj_inv (heap w) /\
  exists g o, _LOG w = Some g /\ heap w !! g = Some o.
Proof.
  intros Hr. split.
  - induction Hr as [can_open|w c Hr IH Hok].
    + cbn. constructor; [|constructor]. repeat split; try discriminate.
      constructor.
    + now apply exec_obj_inv.
  - destruct (reachable_inv w Hr) as [_ (g & Hg & [o Ho])]. eauto.
Qed.

Lemma reachable_instances_well_formed_witness :
  Forall obj_inv (heap two_loggers).
Proof.
  apply (reachable_instances_well_formed two_loggers).
  apply (reach_call (imported (fun _ => true))
           (CNew [OFile 3%nat] (Some Level.Debug) None (Some false)
              None None)); [apply reach_import|exact I].
Defined.

(** ** The two formats *)

Lemma hex_digit_printable (d : N) : d < 16 -> printable (hex_digit d) = true.
Proof.
  intros H. unfold printable, hex_digit. apply andb_true_iff.
  destruct (d <? 10); split; apply N.leb_le; lia.
Qed.

Lemma u_escape_printable (c : N) : forallb printable (u_escape c) = true.
Proof.
  unfold u_escape. cbn [forallb].
  rewrite !hex_digit_printable by (apply N.mod_upper_bound; lia).
  reflexivity.
Qed.

Lemma escape_char_printable (c : N) :
  forallb printable (escape_char c) = true.
Proof.
  unfold escape_char.
  repeat match goal with
         | |- context [if ?a =? ?b then _ else _] => destruct (a =? b)
         end; try reflexivity.
  destruct ((32 <=? c) && (c <=? 126)) eqn:E.
  - cbn. unfold printable. now rewrite E.
  - destruct (c <? 65536); [apply u_escape_printable|].
    cbv zeta. now rewrite forallb_app, !u_escape_printable.
Qed.

Lemma encode_printable (s : pystr) :
  forallb printable (encode_basestring_ascii s) = true.
Proof.
  unfold encode_basestring_ascii. rewrite !forallb_app. cbn.
  rewrite andb_true_r.
  induction s as [|c s IH]; [reflexivity|]. cbn [flat_map].
  now rewrite forallb_app, escape_char_printable, IH.
Qed.

Lemma string_of_uint_printable (d : Decimal.uint) :
  forallb printable (lit (NilEmpty.string_of_uint d)) = true.
Proof. induction d; cbn; auto. Qed.

Lemma str_int_printable (z : Z) : forallb printable (str_int z) = true.
Proof.
  unfold str_int, NilZero.string_of_int.
  destruct (Z.to_int z) as [d|d]; unfold NilZero.string_of_uint.
  - destruct d; try apply string_of_uint_printable; reflexivity.
  - destruct d; try apply (string_of_uint_printable (Decimal.D0 _));
      cbn [lit forallb]; try reflexivity.
Qed.

Lemma json_scalar_printable (v : pyval) :
  forallb printable (json_scalar v) = true.
Proof.
  destruct v as [|[|]|z|s]; try reflexivity;
    [apply str_int_printable|apply encode_printable].
Qed.

(** X21: a line made by [json_formatter] holds printable ASCII only (code
    points 32 to 126), whatever the record: no newline, no carriage return
    and no other control character, even when the message contains them.
    So the text [log] writes to a sink, the line and a newline, has its
    only newline at the end. *)
Theorem json_line_is_one_line (r : record) :
  forallb printable (json_formatter r) = true /\
  ~ In 10 (json_formatter r) /\ ~ In 13 (json_formatter r) /\
  (forall i, (json_formatter r ++ [10]) !! i = Some 10 ->
             i = length (json_formatter r)).
Proof.
  assert (Hp : forallb printable (json_formatter r) = true).
  { unfold json_formatter, json_dumps, json_items_tail.
    rewrite !forallb_app, !json_scalar_printable, !encode_printable.
    reflexivity. }
  assert (Hno : forall c, printable c = false -> ~ In c (json_formatter r)).
  { intros c Hc Hin. rewrite forallb_forall in Hp.
    rewrite (Hp c Hin) in Hc. discriminate. }
  split; [exact Hp|]. split; [now apply Hno|]. split; [now apply Hno|].
  intros i Hi.
  destruct (Nat.lt_ge_cases i (length (json_formatter r))) as [Hlt|Hge].
  - rewrite lookup_app_l in Hi by exact Hlt.
    exfalso. apply (Hno 10 eq_refl).
    apply list_elem_of_In, list_elem_of_lookup. eauto.
  - rewrite lookup_app_r in Hi by exact Hge.
    destruct (i - length (json_formatter r))%nat as [|k] eqn:Hk;
      [lia|discriminate].
Qed.



Lemma read_datetime_isoformat (sep : N) (t : datetime) (rest : pystr) :
  datetime_valid t = true ->
  read_datetime sep (isoformat_sep sep t ++ rest) = Some (t, rest).
Proof.
  intros Hv. destruct (datetime_valid_bounds t Hv)
    as (Hy & Hmo & Hd & Hh & Hmi & Hs & Hus).
  destruct t as [y mo d h mi s us]. cbn [year month day hour minute second
    microsecond] in *.
  unfold read_datetime, isoformat_sep.
  cbn [year month day hour minute second microsecond].
  rewrite <- !app_assoc.
  rewrite (read_digits_zpad_small 4) by exact Hy. rewrite bind_Some.
  rewrite expect_app, bind_Some.
  rewrite (read_digits_zpad_small 2) by exact Hmo. rewrite bind_Some.
  rewrite expect_app, bind_Some.
  rewrite (read_digits_zpad_small 2) by exact Hd. rewrite bind_Some.
  rewrite (expect_app [sep]), bind_Some.
  rewrite (read_digits_zpad_small 2) by exact Hh. rewrite bind_Some.
  rewrite expect_app, bind_Some.
  rewrite (read_digits_zpad_small 2) by exact Hmi. rewrite bind_Some.
  rewrite expect_app, bind_Some.
  rewrite (read_digits_zpad_small 2) by exact Hs. rewrite bind_Some.
  destruct (us =? 0) eqn:Eus.
  - apply N.eqb_eq in Eus. subst us.
    change ([] ++ lit "+00:00" ++ rest) with (43 :: lit "00:00" ++ rest).
    cbv iota. rewrite bind_Some.
    change (43 :: lit "00:00" ++ rest) with (lit "+00:00" ++ rest).
    now rewrite expect_app, bind_Some.
  - rewrite <- !app_assoc.
    change (lit "." ++ zpad 6 us ++ lit "+00:00" ++ rest)
      with (46 :: zpad 6 us ++ lit "+00:00" ++ rest).
    cbv iota.
    rewrite (read_digits_zpad_small 6) by exact Hus. rewrite bind_Some.
    now rewrite expect_app, bind_Some.
Qed.

(** X23: the human-readable line is unambiguous: two records with
    timestamps Python can hold for which [stdout_formatter] gives the same
    line have the same timestamp, the same severity and messages that
    [str] renders alike. *)
Theorem stdout_formatter_unambiguous (r1 r2 : record) :
  datetime_valid (rec_time r1) = true ->
  datetime_valid (rec_time r2) = true ->
  stdout_formatter r1 = stdout_formatter r2 ->
  rec_time r1 = rec_time r2 /\ rec_level r1 = rec_level r2 /\
  py_str (rec_message r1) = py_str (rec_message r2).
Proof.
  intros Hv1 Hv2 E. destruct r1 as [t1 l1 m1], r2 as [t2 l2 m2].
  cbn [rec_time rec_level rec_message] in *.
  set (R1 := lit " - " ++ (_colors l1 ++ level_name_lower l1 ++ _reset)
             ++ lit " - " ++ py_str m1).
  set (R2 := lit " - " ++ (_colors l2 ++ level_name_lower l2 ++ _reset)
             ++ lit " - " ++ py_str m2).
  assert (E' : read_datetime 32 (isoformat_sep 32 t1 ++ R1)
               = read_datetime 32 (isoformat_sep 32 t2 ++ R2))
    by exact (f_equal (read_datetime 32) E).
  rewrite !read_datetime_isoformat in E' by assumption.
  injection E' as Ht Hrest. subst R1 R2.
  split; [assumption|].
  revert Hrest. generalize (py_str m1) (py_str m2). intros s1 s2 Hrest.
  destruct l1, l2; vm_compute in Hrest; try discriminate;
    injection Hrest as ->; now split.
Qed.

Lemma stdout_formatter_unambiguous_witness :
  rec_level {| rec_time := sample_time; rec_level := Level.Info;
               rec_message := PStr hello |}
  = rec_level {| rec_time := sample_time; rec_level := Level.Info;
                 rec_message := PStr hello |}.
Proof.
  apply (stdout_formatter_unambiguous
           {| rec_time := sample_time; rec_level := Level.Info;
              rec_message := PStr hello |}
           {| rec_time := sample_time; rec_level := Level.Info;
              rec_message := PStr hello |}); reflexivity.
Defined.


